(** * Amadeus hotels MCP server: the client and its tool handlers

    A shallow embedding of [amadeus-client.ts] (class [AmadeusClient]) and of
    the [CallToolRequestSchema] handler of [index.ts], with the properties of
    the batching, rate-code merging, enrichment, token caching and input
    validation that the design document states.

    Two revisions of the client are in the tree.  They share the logic
    embedded here and differ in four constants: the [SUPPLIER_CODES] table,
    the [MAX_RATE_CODES] truncation (present in the enterprise revision,
    absent in the earlier one), the default [paymentPolicy] and the
    production host.  The embedding is indexed by [Revision].  (The
    enterprise revision also sends an [Ama-Client-Ref] header, random and
    read by nothing here; it is left out.)

    Conventions.
    - A JavaScript string is a [string] holding its UTF-8 bytes.
    - A JavaScript number that holds a time or a count is a [Z] or a [nat]
      (all values involved are integers far below 2^53).
    - [undefined] / an absent property is [None].
    - [async] code runs in the monad [M]: state passing over the client's
      mutable fields and the outside world, exceptions as [Throw], and a
      trace of the observable events (HTTP invocations, requests put on the
      wire, timers, log lines). *)

From Stdlib Require Import String Ascii List ZArith NArith Lia Bool Arith PeanoNat.
From Stdlib Require Import DecimalString.
From Equations Require Import Equations.
Import ListNotations.
Local Open Scope string_scope.
Local Open Scope list_scope.

Set Implicit Arguments.
Set Warnings "-register-all".

(* ===================================================================== *)
(** ** JavaScript strings and arrays *)
(* ===================================================================== *)

Module JS.

(** Truthiness of a string: every string but the empty one. *)
Definition truthy_string (s : string) : bool :=
  match s with EmptyString => false | String _ _ => true end.

(** Truthiness of [string | null | undefined]. *)
Definition truthy (o : option string) : bool :=
  match o with Some s => truthy_string s | None => false end.

Definition codes (s : string) : list N :=
  map N_of_ascii (list_ascii_of_string s).

Definition of_codes (l : list N) : string :=
  string_of_list_ascii (map ascii_of_N l).

(** The code points that [String.prototype.trim] strips (WhiteSpace and
    LineTerminator of ECMA-262), each as its UTF-8 byte sequence:
    TAB, LF, VT, FF, CR, SP, U+00A0, U+1680, U+2000..U+200A, U+2028,
    U+2029, U+202F, U+205F, U+3000, U+FEFF. *)
Definition white_space : list (list N) :=
  [ [9]; [10]; [11]; [12]; [13]; [32];
    [194; 160];
    [225; 154; 128];
    [226; 128; 128]; [226; 128; 129]; [226; 128; 130]; [226; 128; 131];
    [226; 128; 132]; [226; 128; 133]; [226; 128; 134]; [226; 128; 135];
    [226; 128; 136]; [226; 128; 137]; [226; 128; 138];
    [226; 128; 168]; [226; 128; 169]; [226; 128; 175];
    [226; 129; 159];
    [227; 128; 128];
    [239; 187; 191] ]%N.

Fixpoint starts_with (p l : list N) : bool :=
  match p, l with
  | [], _ => true
  | _ :: _, [] => false
  | a :: p', b :: l' => N.eqb a b && starts_with p' l'
  end.

(** Byte length of the white-space code point at the head of [l]
    (0 when [l] does not start with one). *)
Definition ws_len (toks : list (list N)) (l : list N) : nat :=
  match find (fun p => starts_with p l) toks with
  | Some p => length p
  | None => 0
  end.

(** Strip leading white space; [skip] counts the bytes of the current
    code point that are still to be dropped. *)
Fixpoint drop_ws (toks : list (list N)) (skip : nat) (l : list N) : list N :=
  match l with
  | [] => []
  | _ :: r =>
      match skip with
      | S k => drop_ws toks k r
      | O => match ws_len toks l with
             | O => l
             | S k => drop_ws toks k r
             end
      end
  end.

Definition trimStart_codes (l : list N) : list N := drop_ws white_space 0 l.

Definition trimEnd_codes (l : list N) : list N :=
  rev (drop_ws (map (@rev N) white_space) 0 (rev l)).

(** [String.prototype.trim]. *)
Definition trim (s : string) : string :=
  of_codes (trimEnd_codes (trimStart_codes (codes s))).

(** [s.split(",")]. *)
Fixpoint split_comma (s : string) : list string :=
  match s with
  | EmptyString => [EmptyString]
  | String c r =>
      if Ascii.eqb c ","%char then EmptyString :: split_comma r
      else match split_comma r with
           | h :: t => String c h :: t
           | [] => [String c EmptyString]
           end
  end.

(** [a.join(",")]. *)
Definition join_comma (a : list string) : string := String.concat "," a.

(** [a.slice(start, end)] for [0 <= start <= end]. *)
Definition slice (A : Type) (start end_ : nat) (a : list A) : list A :=
  firstn (end_ - start) (skipn start a).

(** [a.includes(x)] on an array of strings. *)
Definition includes (x : string) (a : list string) : bool :=
  existsb (String.eqb x) a.

(** A [Set] of strings, kept as the list of its elements in insertion
    order (the order in which [...set] yields them). *)
Definition Set_add (x : string) (s : list string) : list string :=
  if includes x s then s else s ++ [x].

(** [[...new Set(a)]]: the constructor adds the elements of [a] one by
    one, in order. *)
Definition new_Set (a : list string) : list string :=
  fold_left (fun s x => Set_add x s) a [].

End JS.

(* ===================================================================== *)
(** ** Data model ([types.ts]) *)
(* ===================================================================== *)

(** Upstream payload that the client carries through without looking at it. *)
Inductive Json : Type :=
| JNull
| JBool (b : bool)
| JNum (z : Z)
| JStr (s : string)
| JArr (items : list Json)
| JObj (fields : list (string * Json)).

(** One element of [HotelOffer.offers].  [supplierName] and
    [isNegotiatedRate] are the two client-side fields; [rest] holds the
    properties that neither the client nor the handler reads. *)
Module Offer.
Record t : Type := mk {
  id : string;
  checkInDate : string;
  checkOutDate : string;
  rateCode : option string;
  supplierName : option string;
  isNegotiatedRate : option bool;
  boardType : option string;
  room : Json;
  guests : Json;
  price : Json;
  policies : option Json;
  rest : list (string * Json)
}.
End Offer.

Module Hotel.
Record t : Type := mk {
  hotelId : string;
  name : string;
  rating : option string;
  address : option Json;
  rest : list (string * Json)
}.
End Hotel.

Module HotelOffer.
Record t : Type := mk {
  type : option string;
  hotel : Hotel.t;
  available : bool;
  offers : option (list Offer.t);
  self : option string
}.
End HotelOffer.

Module HotelSearchResult.
Record t : Type := mk {
  hotelId : string;
  name : string;
  chainCode : option string;
  rating : option string;
  address : option Json;
  geoCode : option Json;
  distance : option Json;
  amenities : option (list string);
  rest : list (string * Json)
}.
End HotelSearchResult.

Module HotelContent.
Record t : Type := mk {
  hotelId : option string;
  basic : option Json
}.
End HotelContent.

Module AmadeusTokenResponse.
Record t : Type := mk {
  access_token : string;
  expires_in : Z;
  token_type : string
}.
End AmadeusTokenResponse.

(** The [arguments] object of a tool call.  [SearchHotelsByCity],
    [SearchHotelsByGeocode], [GetHotelOffers] and [GetHotelOfferById] are
    views of this one object ([args as unknown as ...] checks nothing), so
    one record with every property the code reads, each possibly absent,
    stands for all of them.  Coordinates are passed through untouched and
    are kept as their decimal rendering. *)
Module Args.
Record t : Type := mk {
  cityCode : option string;
  latitude : option string;
  longitude : option string;
  radius : option Z;
  radiusUnit : option string;
  chainCodes : option (list string);
  amenities : option (list string);
  ratings : option (list string);
  hotelSource : option string;
  hotelIds : option (list string);
  checkInDate : option string;
  checkOutDate : option string;
  adults : option Z;
  roomQuantity : option Z;
  currency : option string;
  priceRange : option string;
  rateCodes : option (list string);
  paymentPolicy : option string;
  boardType : option string;
  lang : option string;
  offerId : option string;
  hotelId : option string
}.

(** The object [{}]. *)
Definition empty : t :=
  mk None None None None None None None None None None None
     None None None None None None None None None None None.
End Args.

(* ===================================================================== *)
(** ** The two revisions and the supplier code registry *)
(* ===================================================================== *)

Inductive Revision : Type :=
| Enterprise   (** the revision with [MAX_RATE_CODES] and [benefits] *)
| Earlier.     (** [mcp-servers/amadeus-hotels/src/amadeus-client.ts] *)

Module SupplierInfo.
Record t : Type := mk {
  name : string;
  description : string;
  benefits : list string   (** empty in the earlier revision, which has no such field *)
}.
End SupplierInfo.

Definition upgrade := "Room upgrade at check-in (subject to availability)".
Definition breakfast := "Daily breakfast for two".
Definition early_late := "Early check-in / late checkout (subject to availability)".
Definition late := "Late checkout (subject to availability)".
Definition hotel_credit := "USD 100 hotel credit per stay".
Definition property_credit := "USD 100 property credit per stay".
Definition wifi := "Complimentary Wi-Fi".

(** [SUPPLIER_CODES], as the list of its own properties in insertion order
    (none of the keys is an array index, so this is also the order of
    [Object.keys]). *)
Definition SUPPLIER_CODES (r : Revision) : list (string * SupplierInfo.t) :=
  match r with
  | Enterprise =>
      [ ("APS", SupplierInfo.mk "Virtuoso"
           "Exclusive luxury travel network - VIP amenities and upgrades"
           [upgrade; breakfast; early_late; hotel_credit; wifi]);
        ("PP6", SupplierInfo.mk "Four Seasons Preferred Partner"
           "Exclusive benefits at Four Seasons properties"
           [upgrade; breakfast; late; hotel_credit; wifi]);
        ("3MF", SupplierInfo.mk "Mandarin Oriental Fan Club"
           "Fan Club benefits at Mandarin Oriental properties worldwide"
           [upgrade; breakfast; early_late; hotel_credit;
            "Complimentary pressing of two garments"]);
        ("1HZ", SupplierInfo.mk "Hyatt Prive"
           "Exclusive amenities at Hyatt Hotels via Prive program"
           [upgrade; breakfast; early_late; property_credit; wifi]);
        ("W9E", SupplierInfo.mk "SLH (Small Luxury Hotels)"
           "Boutique luxury experiences through Small Luxury Hotels of the World"
           [upgrade; breakfast; late; hotel_credit; "VIP recognition"]);
        ("PR2", SupplierInfo.mk "Preferred Hotels & Resorts"
           "Preferred Hotels iPrefer benefits and amenities"
           [upgrade; breakfast; late; property_credit; "iPrefer loyalty points"]) ]
  | Earlier =>
      [ ("APS", SupplierInfo.mk "Virtuoso"
           "Exclusive luxury travel network – VIP amenities and upgrades" []);
        ("PP6", SupplierInfo.mk "Four Seasons Preferred Partner"
           "Exclusive benefits at Four Seasons properties" []);
        ("3MF", SupplierInfo.mk "Mandarin Oriental Fan Club"
           "Fan Club benefits at Mandarin Oriental properties worldwide" []);
        ("1HZ", SupplierInfo.mk "Hyatt Privé"
           "Exclusive amenities at Hyatt Hotels via Privé program" []);
        ("W9E", SupplierInfo.mk "SLH (Small Luxury Hotels)"
           "Boutique luxury experiences through Small Luxury Hotels" []);
        ("PR2", SupplierInfo.mk "Preferred Hotels & Resorts"
           "Preferred Hotels iPrefer benefits and amenities" []);
        ("RAC", SupplierInfo.mk "Rack Rate" "Standard published hotel rate" []);
        ("AAA", SupplierInfo.mk "AAA Rate" "Special rates for AAA/CAA members" []);
        ("BED", SupplierInfo.mk "Bed & Breakfast" "Rate including daily breakfast" []);
        ("PFK", SupplierInfo.mk "Package Rate"
           "Special package with additional amenities" []) ]
  end.

(** [MAX_RATE_CODES] and the [.slice(0, MAX_RATE_CODES)] that uses it exist
    in the enterprise revision only. *)
Definition MAX_RATE_CODES (r : Revision) : option nat :=
  match r with Enterprise => Some 6 | Earlier => None end.

Definition default_paymentPolicy (r : Revision) : string :=
  match r with Enterprise => "GUARANTEE" | Earlier => "NONE" end.

Definition production_baseUrl (r : Revision) : string :=
  match r with
  | Enterprise => "https://travel.api.amadeus.com"
  | Earlier => "https://api.amadeus.com"
  end.

Fixpoint assoc (A : Type) (k : string) (l : list (string * A)) : option A :=
  match l with
  | [] => None
  | (k', v) :: l' => if String.eqb k k' then Some v else assoc k l'
  end.

(** [Object.keys(SUPPLIER_CODES)]: the codes known to the registry. *)
Definition Object_keys (A : Type) (o : list (string * A)) : list string :=
  map fst o.

(** [SUPPLIER_CODES] is an object literal, so its prototype is
    [Object.prototype], and [SUPPLIER_CODES[key]] finds the inherited
    properties as well.  Each one is listed with the value that [?.name]
    reads from it: the standard methods are functions named after their
    property, [constructor] is the function [Object], and [__proto__]
    yields [Object.prototype] itself, which has no [name]. *)
Definition Object_prototype : list (string * option string) :=
  [ ("constructor", Some "Object");
    ("__defineGetter__", Some "__defineGetter__");
    ("__defineSetter__", Some "__defineSetter__");
    ("hasOwnProperty", Some "hasOwnProperty");
    ("__lookupGetter__", Some "__lookupGetter__");
    ("__lookupSetter__", Some "__lookupSetter__");
    ("isPrototypeOf", Some "isPrototypeOf");
    ("propertyIsEnumerable", Some "propertyIsEnumerable");
    ("toString", Some "toString");
    ("valueOf", Some "valueOf");
    ("__proto__", None);
    ("toLocaleString", Some "toLocaleString") ].

(** What [SUPPLIER_CODES[code]] evaluates to when it is not [undefined]. *)
Inductive PropertyValue : Type :=
| OwnEntry (info : SupplierInfo.t)
| Inherited (name : option string).

(** [SUPPLIER_CODES[code]]: own properties first, then the prototype. *)
Definition SUPPLIER_CODES_get (r : Revision) (code : string) : option PropertyValue :=
  match assoc code (SUPPLIER_CODES r) with
  | Some info => Some (OwnEntry info)
  | None =>
      match assoc code Object_prototype with
      | Some n => Some (Inherited n)
      | None => None
      end
  end.

(** [supplierInfo?.name]. *)
Definition name_of (v : option PropertyValue) : option string :=
  match v with
  | Some (OwnEntry info) => Some (SupplierInfo.name info)
  | Some (Inherited n) => n
  | None => None
  end.

(** [Boolean(supplierInfo)]: objects and functions are truthy. *)
Definition Boolean_of (v : option PropertyValue) : bool :=
  match v with Some _ => true | None => false end.

(* ===================================================================== *)
(** ** Offer enrichment and the availability filter *)
(* ===================================================================== *)

(** The callback of [hotel.offers?.map(...)]. *)
Definition enrichOffer (r : Revision) (offer : Offer.t) : Offer.t :=
  let code := match Offer.rateCode offer with
              | Some c => JS.trim c
              | None => ""
              end in
  let supplierInfo := SUPPLIER_CODES_get r code in
  Offer.mk (Offer.id offer) (Offer.checkInDate offer) (Offer.checkOutDate offer)
           (Offer.rateCode offer)
           (name_of supplierInfo)
           (Some (Boolean_of supplierInfo))
           (Offer.boardType offer) (Offer.room offer) (Offer.guests offer)
           (Offer.price offer) (Offer.policies offer) (Offer.rest offer).

(** The callback of [response.data.data.map(...)]. *)
Definition enrichHotel (r : Revision) (hotel : HotelOffer.t) : HotelOffer.t :=
  HotelOffer.mk (HotelOffer.type hotel) (HotelOffer.hotel hotel)
                (HotelOffer.available hotel)
                (option_map (map (enrichOffer r)) (HotelOffer.offers hotel))
                (HotelOffer.self hotel).

(** [h.available && (h.offers?.length ?? 0) > 0]. *)
Definition has_inventory (h : HotelOffer.t) : bool :=
  HotelOffer.available h &&
  (0 <? match HotelOffer.offers h with Some l => length l | None => 0 end)%nat.

(** What one successful response adds to [allResults]:
    nothing unless [response.data?.data?.length] is truthy. *)
Definition accepted (r : Revision) (data : option (list HotelOffer.t)) : list HotelOffer.t :=
  match data with
  | Some (h :: t) => filter has_inventory (map (enrichHotel r) (h :: t))
  | Some [] | None => []
  end.

(* ===================================================================== *)
(** ** Errors, events and the outside world *)
(* ===================================================================== *)

Inductive ErrorCode : Type := InvalidParams | MethodNotFound | InternalError.

Inductive Error : Type :=
| AxiosError (status : option Z) (data : option Json) (message : string)
| McpError (code : ErrorCode) (message : string)
| TypeError (message : string)
| PlainError (message : string).

Definition isAxiosError (e : Error) : bool :=
  match e with AxiosError _ _ _ => true | _ => false end.

Definition message_of (e : Error) : string :=
  match e with
  | AxiosError _ _ m | McpError _ m | TypeError m | PlainError m => m
  end.

(** How an awaited promise settles. *)
Inductive Outcome (A : Type) : Type :=
| Return (a : A)
| Throw (e : Error).
Arguments Return {A} a.
Arguments Throw {A} e.

(** Query or form parameters, [Record<string, string>]. *)
Definition Params : Type := list (string * string).

Inductive Event : Type :=
| HttpGet (url : string) (params : Params)
    (** [this.http.get(url, { params })] is invoked *)
| Sent (url : string) (params : Params) (authorization : string)
    (** the request leaves the interceptor and goes to the upstream *)
| TokenPost (url : string) (form : Params)
    (** [axios.post(this.authUrl, ...)], the credential exchange *)
| SetTimeout (ms : Z)
| ConsoleError (line : string).

(** The upstream service, the clock and the timer.  Every call may change
    the world, so the same request may be answered differently later on. *)
Class World (W : Type) : Type := {
  Date_now : W -> Z;
  post_token : string -> Params -> W -> Outcome AmadeusTokenResponse.t * W;
  get_hotels : string -> Params -> string -> W ->
               Outcome (option (list HotelSearchResult.t)) * W;
  get_offers : Params -> string -> W -> Outcome (option (list HotelOffer.t)) * W;
  get_offer : string -> Params -> string -> W -> Outcome HotelOffer.t * W;
  get_content : string -> string -> W -> Outcome (option HotelContent.t) * W;
  after_timeout : Z -> W -> W
}.

(** [String(n)] for an integer [n]. *)
Definition String_of (n : Z) : string := NilZero.string_of_int (Z.to_int n).

(** [s.toUpperCase()], on the ASCII letters. *)
Definition toUpperCase (s : string) : string :=
  JS.of_codes (map (fun c => if (97 <=? c)%N && (c <=? 122)%N then (c - 32)%N else c)
                   (JS.codes s)).

(* ===================================================================== *)
(** ** The client: fields and constructor *)
(* ===================================================================== *)

Module Env.
(** [process.env], the variables the constructor reads. *)
Record t : Type := mk {
  AMADEUS_ENV : option string;
  AMADEUS_CLIENT_ID : option string;
  AMADEUS_CLIENT_SECRET : option string;
  AMADEUS_GUEST_OFFICE_ID : option string;
  AMADEUS_RATE_CODES : option string
}.
End Env.

Module AmadeusClient.
Record t : Type := mk {
  clientId : string;
  clientSecret : string;
  guestOfficeId : option string;
  baseUrl : string;
  authUrl : string;
  defaultSupplierCodes : list string;
  accessToken : option string;
  tokenExpiresAt : Z
}.

Definition set_token (c : t) (tok : string) (exp : Z) : t :=
  mk (clientId c) (clientSecret c) (guestOfficeId c) (baseUrl c) (authUrl c)
     (defaultSupplierCodes c) (Some tok) exp.
End AmadeusClient.

Definition or_else (A : Type) (o : option A) (d : A) : A :=
  match o with Some a => a | None => d end.
Notation "o ?? d" := (or_else o d) (at level 45, left associativity).

(** The default rate codes that the constructor computes. *)
Definition configured_codes (r : Revision) (AMADEUS_RATE_CODES : option string) : list string :=
  match AMADEUS_RATE_CODES with
  | Some s =>
      if JS.truthy_string s
      then filter JS.truthy_string (map JS.trim (JS.split_comma s))
      else Object_keys (SUPPLIER_CODES r)
  | None => Object_keys (SUPPLIER_CODES r)
  end.

Definition constructor (r : Revision) (env : Env.t) : Outcome AmadeusClient.t :=
  let isTest := match Env.AMADEUS_ENV env with
                | Some e => String.eqb e "test"
                | None => false
                end in
  let clientId := Env.AMADEUS_CLIENT_ID env ?? "" in
  let clientSecret := Env.AMADEUS_CLIENT_SECRET env ?? "" in
  let guestOfficeId := Env.AMADEUS_GUEST_OFFICE_ID env in
  let baseUrl := if isTest then "https://test.travel.api.amadeus.com"
                 else production_baseUrl r in
  let authUrl := String.append baseUrl "/v1/security/oauth2/token" in
  let defaultSupplierCodes := configured_codes r (Env.AMADEUS_RATE_CODES env) in
  if negb (JS.truthy_string clientId) || negb (JS.truthy_string clientSecret)
  then Throw (PlainError
    "AMADEUS_CLIENT_ID and AMADEUS_CLIENT_SECRET environment variables are required")
  else Return (AmadeusClient.mk clientId clientSecret guestOfficeId baseUrl authUrl
                                defaultSupplierCodes None 0).

(** [getDefaultSupplierCodes()]. *)
Definition getDefaultSupplierCodes (c : AmadeusClient.t) : list string :=
  AmadeusClient.defaultSupplierCodes c.

(* ===================================================================== *)
(** ** The monad of [async] methods *)
(* ===================================================================== *)

Section Async.

Context {W : Type} {world : World W}.

(** The client's fields and the world. *)
Definition State : Type := (AmadeusClient.t * W)%type.

Definition M (A : Type) : Type := State -> Outcome A * State * list Event.

Definition ret (A : Type) (a : A) : M A := fun s => (Return a, s, []).

Definition bind (A B : Type) (m : M A) (f : A -> M B) : M B :=
  fun s =>
    match m s with
    | (Return a, s1, t1) => let '(o, s2, t2) := f a s1 in (o, s2, t1 ++ t2)
    | (Throw e, s1, t1) => (Throw e, s1, t1)
    end.

Definition throw (A : Type) (e : Error) : M A := fun s => (Throw e, s, []).

(** [try { m } catch (err) { h err }]. *)
Definition try_catch (A : Type) (m : M A) (h : Error -> M A) : M A :=
  fun s =>
    match m s with
    | (Return a, s1, t1) => (Return a, s1, t1)
    | (Throw e, s1, t1) => let '(o, s2, t2) := h e s1 in (o, s2, t1 ++ t2)
    end.

Definition emit (e : Event) : M unit := fun s => (Return tt, s, [e]).

Definition this : M AmadeusClient.t := fun s => (Return (fst s), s, []).

Definition assign (c : AmadeusClient.t) : M unit :=
  fun s => (Return tt, (c, snd s), []).

Definition now : M Z := fun s => (Return (Date_now (snd s)), s, []).

(** A call to the outside: the world answers and moves on. *)
Definition upstream (A : Type) (call : W -> Outcome A * W) : M A :=
  fun s => let '(o, w) := call (snd s) in (o, (fst s, w), []).

(** [await new Promise((r) => setTimeout(r, ms))]. *)
Definition sleep (ms : Z) : M unit :=
  fun s => (Return tt, (fst s, after_timeout ms (snd s)), [SetTimeout ms]).

End Async.

Arguments State W : clear implicits.
Arguments M W A : clear implicits.
Arguments throw {W A} e.
Arguments ret {W A} a.
Arguments emit {W} e.
Arguments this {W}.
Arguments assign {W} c.

Notation "x <- m ;; k" := (bind m (fun x => k))
  (at level 61, m at next level, right associativity).
Notation "m ;; k" := (bind m (fun _ => k))
  (at level 61, right associativity).

(* ===================================================================== *)
(** ** [AmadeusClient]: the methods *)
(* ===================================================================== *)

(** [if (v) obj[key] = v] for an optional string. *)
Definition if_truthy (key : string) (v : option string) : Params :=
  match v with
  | Some s => if JS.truthy_string s then [(key, s)] else []
  | None => []
  end.

(** A property whose value may be [undefined]; axios leaves those out. *)
Definition if_defined (key : string) (v : option string) : Params :=
  match v with Some s => [(key, s)] | None => [] end.

(** [if (a?.length) obj[key] = a.join(",")]. *)
Definition if_nonempty (key : string) (a : option (list string)) : Params :=
  match a with
  | Some (x :: l) => [(key, JS.join_comma (x :: l))]
  | Some [] | None => []
  end.

Definition BATCH_SIZE : nat := 20.

(** The first loop of [getHotelOffers]:
    [for (let i = 0; i < allIds.length; i += BATCH_SIZE)
       batches.push(allIds.slice(i, i + BATCH_SIZE));] *)
Equations? batches_from (allIds : list string) (i : nat) (batches : list (list string))
  : list (list string) by wf (length allIds - i) lt :=
  batches_from allIds i batches with lt_dec i (length allIds) => {
    | left _ := batches_from allIds (i + BATCH_SIZE)
                  (batches ++ [JS.slice i (i + BATCH_SIZE) allIds]);
    | right _ := batches }.
Proof. unfold BATCH_SIZE. lia. Qed.

Definition batches_of (allIds : list string) : list (list string) :=
  batches_from allIds 0 [].

(** [[...new Set([...(params.rateCodes ?? []), ...this.defaultSupplierCodes])]],
    followed in the enterprise revision by [.slice(0, MAX_RATE_CODES)]. *)
Definition merged_rateCodes (r : Revision) (callerCodes : option (list string))
           (defaultSupplierCodes : list string) : list string :=
  let merged := JS.new_Set ((callerCodes ?? []) ++ defaultSupplierCodes) in
  match MAX_RATE_CODES r with
  | Some cap => JS.slice 0 cap merged
  | None => merged
  end.

Definition offers_url : string := "/v3/shopping/hotel-offers".

(** [requestParams] of one batch. *)
Definition requestParams (r : Revision) (params : Args.t) (rateCodes : list string)
           (batch : list string) : Params :=
  [ ("hotelIds", JS.join_comma batch);
    ("adults", String_of (Args.adults params ?? 1%Z)) ]
  ++ if_defined "checkInDate" (Args.checkInDate params)
  ++ if_defined "checkOutDate" (Args.checkOutDate params)
  ++ [ ("roomQuantity", String_of (Args.roomQuantity params ?? 1%Z));
       ("paymentPolicy", Args.paymentPolicy params ?? default_paymentPolicy r);
       ("includeClosed", "false");
       ("view", "FULL");
       ("bestRateOnly", "false") ]
  ++ if_truthy "currency" (Args.currency params)
  ++ if_truthy "priceRange" (Args.priceRange params)
  ++ if_truthy "boardType" (Args.boardType params)
  ++ if_truthy "lang" (Args.lang params)
  ++ match rateCodes with
     | [] => []
     | _ :: _ => [("rateCodes", JS.join_comma rateCodes)]
     end.

Section Methods.

Context {W : Type} {world : World W}.
Variable r : Revision.

(** The test at the head of [getAccessToken]:
    [this.accessToken && now < this.tokenExpiresAt - 30_000]. *)
Definition still_valid (c : AmadeusClient.t) (now : Z) : bool :=
  JS.truthy (AmadeusClient.accessToken c)
  && (now <? AmadeusClient.tokenExpiresAt c - 30000)%Z.

Definition token_form (c : AmadeusClient.t) : Params :=
  [ ("grant_type", "client_credentials");
    ("client_id", AmadeusClient.clientId c);
    ("client_secret", AmadeusClient.clientSecret c) ]
  ++ if_truthy "guest_office_id" (AmadeusClient.guestOfficeId c).

Definition getAccessToken : M W string :=
  t <- now ;;
  c <- this ;;
  if still_valid c t
  then ret (AmadeusClient.accessToken c ?? "")
  else
    emit (TokenPost (AmadeusClient.authUrl c) (token_form c)) ;;
    response <- upstream (post_token (AmadeusClient.authUrl c) (token_form c)) ;;
    c' <- this ;;
    assign (AmadeusClient.set_token c'
              (AmadeusTokenResponse.access_token response)
              (t + AmadeusTokenResponse.expires_in response * 1000)%Z) ;;
    ret (AmadeusTokenResponse.access_token response).

(** The request interceptor installed by the constructor: every
    [this.http.get] first obtains the token. *)
Definition authorization : M W string :=
  token <- getAccessToken ;;
  ret (String.append "Bearer " token).

(** [this.http.get(url, { params })], for each response type. *)
Definition http_get (A : Type) (url : string) (params : Params)
           (call : string -> W -> Outcome A * W) : M W A :=
  emit (HttpGet url params) ;;
  auth <- authorization ;;
  emit (Sent url params auth) ;;
  upstream (call auth).

(** The body of the second loop, from the [try] to the pacing delay. *)
Definition one_batch (params : Args.t) (rateCodes : list string)
           (batch : list string) (batchIdx n : nat) : M W (list HotelOffer.t) :=
  added <- try_catch
             (let q := requestParams r params rateCodes batch in
              data <- http_get offers_url q (get_offers q) ;;
              ret (accepted r data))
             (fun err =>
                (if isAxiosError err
                 then emit (ConsoleError
                        (String.append "[amadeus] Batch "
                           (String.append (String_of (Z.of_nat (batchIdx + 1)))
                                          " error:")))
                 else ret tt) ;;
                ret []) ;;
  (if (batchIdx <? n - 1)%nat then sleep 100 else ret tt) ;;
  ret added.

(** [for (let batchIdx = 0; batchIdx < batches.length; batchIdx++)], over
    the batches that remain; [n] is [batches.length]. *)
Fixpoint batch_loop (params : Args.t) (rateCodes : list string)
         (remaining : list (list string)) (batchIdx n : nat)
         (allResults : list HotelOffer.t) : M W (list HotelOffer.t) :=
  match remaining with
  | [] => ret allResults
  | batch :: rest =>
      added <- one_batch params rateCodes batch batchIdx n ;;
      batch_loop params rateCodes rest (S batchIdx) n (allResults ++ added)
  end.

Definition getHotelOffers (params : Args.t) : M W (list HotelOffer.t) :=
  match Args.hotelIds params with
  | None => throw (TypeError "Cannot read properties of undefined (reading 'length')")
  | Some allIds =>
      let batches := batches_of allIds in
      c <- this ;;
      let rateCodes := merged_rateCodes r (Args.rateCodes params)
                         (AmadeusClient.defaultSupplierCodes c) in
      batch_loop params rateCodes batches 0 (length batches) []
  end.

Definition undefined_read {A : Type} (prop : string) : M W A :=
  throw (TypeError (String.append "Cannot read properties of undefined (reading '"
                      (String.append prop "')"))).

(** [Math.min(Math.max(1, params.radius ?? 20), 100)]. *)
Definition clamped_radius (params : Args.t) : Z :=
  Z.min (Z.max 1 (Args.radius params ?? 20%Z)) 100.

Definition search_filters (params : Args.t) : Params :=
  [ ("radius", String_of (clamped_radius params));
    ("radiusUnit", Args.radiusUnit params ?? "KM");
    ("hotelSource", Args.hotelSource params ?? "ALL") ]
  ++ if_nonempty "chainCodes" (Args.chainCodes params)
  ++ if_nonempty "amenities" (Args.amenities params)
  ++ if_nonempty "ratings" (Args.ratings params).

Definition by_city_url : string := "/v1/reference-data/locations/hotels/by-city".
Definition by_geocode_url : string := "/v1/reference-data/locations/hotels/by-geocode".

Definition searchHotelsByCity (params : Args.t) : M W (list HotelSearchResult.t) :=
  match Args.cityCode params with
  | None => undefined_read "toUpperCase"
  | Some cityCode =>
      let query := ("cityCode", toUpperCase cityCode) :: search_filters params in
      data <- http_get by_city_url query (get_hotels by_city_url query) ;;
      ret (data ?? [])
  end.

Definition searchHotelsByGeocode (params : Args.t) : M W (list HotelSearchResult.t) :=
  let query := if_defined "latitude" (Args.latitude params)
               ++ if_defined "longitude" (Args.longitude params)
               ++ search_filters params in
  data <- http_get by_geocode_url query (get_hotels by_geocode_url query) ;;
  ret (data ?? []).

Definition getHotelOfferById (params : Args.t) : M W HotelOffer.t :=
  let query := if_truthy "lang" (Args.lang params) in
  let url := String.append "/v3/shopping/hotel-offers/"
               (Args.offerId params ?? "undefined") in
  http_get url query (get_offer url query).

Definition getHotelContent (hotelId : string) : M W (option HotelContent.t) :=
  let url := String.append "/v1/reference-data/locations/hotels/" hotelId in
  try_catch
    (data <- http_get url [] (get_content url) ;;
     ret data)
    (fun err =>
       (if isAxiosError err
        then emit (ConsoleError
               (String.append "[amadeus] Hotel content unavailable for "
                  (String.append hotelId ":")))
        else ret tt) ;;
       ret None).

End Methods.

(* ===================================================================== *)
(** ** [index.ts]: the tool handler *)
(* ===================================================================== *)

(** What a tool call resolves to.  The handler renders these values with
    [JSON.stringify]; the rendering is not part of the embedding, nor is the
    selection of fields it makes in each hotel and offer. *)
Inductive ToolResult : Type :=
| CityHotels (cityCode : string) (hotels : list HotelSearchResult.t)
| GeocodeHotels (latitude longitude : string) (hotels : list HotelSearchResult.t)
| HotelOffers (checkIn checkOut : string) (adults rooms : Z)
              (negotiatedRateCodesApplied : list string)
              (hotelsSearched : nat) (results : list HotelOffer.t)
| OfferDetails (offer : HotelOffer.t)
| NoContent
| Content (hotelId : string) (content : HotelContent.t)
| SupplierCodes (activeCodes : list string)
                (allKnownCodes : list (string * SupplierInfo.t * bool))
| ApiError (status : option Z) (details : option Json).

Section Handler.

Context {W : Type} {world : World W}.
Variable r : Revision.

(** The [switch (name)] inside the [try]. *)
Definition dispatch (name : string) (args : option Args.t) : M W ToolResult :=
  if String.eqb name "search_hotels_by_city" then
    match args with
    | None => undefined_read "cityCode"
    | Some params =>
        if negb (JS.truthy (Args.cityCode params))
        then throw (McpError InvalidParams "cityCode is required")
        else
          hotels <- searchHotelsByCity params ;;
          ret (CityHotels (toUpperCase (Args.cityCode params ?? "")) hotels)
    end
  else if String.eqb name "search_hotels_by_geocode" then
    match args with
    | None => undefined_read "latitude"
    | Some params =>
        match Args.latitude params, Args.longitude params with
        | Some latitude, Some longitude =>
            hotels <- searchHotelsByGeocode params ;;
            ret (GeocodeHotels latitude longitude hotels)
        | _, _ => throw (McpError InvalidParams "latitude and longitude are required")
        end
    end
  else if String.eqb name "get_hotel_offers" then
    match args with
    | None => undefined_read "hotelIds"
    | Some params =>
        if negb (0 <? length (Args.hotelIds params ?? []))%nat
           || negb (JS.truthy (Args.checkInDate params))
           || negb (JS.truthy (Args.checkOutDate params))
        then throw (McpError InvalidParams
                      "hotelIds, checkInDate, and checkOutDate are required")
        else
          offers <- getHotelOffers r params ;;
          c <- this ;;
          ret (HotelOffers (Args.checkInDate params ?? "")
                           (Args.checkOutDate params ?? "")
                           (Args.adults params ?? 1%Z)
                           (Args.roomQuantity params ?? 1%Z)
                           (getDefaultSupplierCodes c)
                           (length (Args.hotelIds params ?? []))
                           offers)
    end
  else if String.eqb name "get_hotel_offer_details" then
    match args with
    | None => undefined_read "offerId"
    | Some params =>
        if negb (JS.truthy (Args.offerId params))
        then throw (McpError InvalidParams "offerId is required")
        else
          offer <- getHotelOfferById params ;;
          ret (OfferDetails offer)
    end
  else if String.eqb name "get_hotel_content" then
    match args with
    | None => throw (TypeError
                "Cannot destructure property 'hotelId' of 'args' as it is undefined.")
    | Some params =>
        match Args.hotelId params with
        | Some hotelId =>
            if negb (JS.truthy_string hotelId)
            then throw (McpError InvalidParams "hotelId is required")
            else
              content <- getHotelContent hotelId ;;
              match content with
              | None => ret NoContent
              | Some content => ret (Content hotelId content)
              end
        | None => throw (McpError InvalidParams "hotelId is required")
        end
    end
  else if String.eqb name "list_supplier_codes" then
    c <- this ;;
    ret (SupplierCodes
           (getDefaultSupplierCodes c)
           (map (fun '(code, info) =>
                   (code, info, JS.includes code (getDefaultSupplierCodes c)))
                (SUPPLIER_CODES r)))
  else throw (McpError MethodNotFound (String.append "Unknown tool: " name)).

(** The [catch (err)] of the handler. *)
Definition on_error (err : Error) : M W ToolResult :=
  match err with
  | AxiosError status data _ => ret (ApiError status data)
  | McpError _ _ => throw err
  | TypeError _ | PlainError _ => throw (McpError InternalError (message_of err))
  end.

(** [server.setRequestHandler(CallToolRequestSchema, ...)]: [args] is
    [request.params.arguments], which a request may leave out. *)
Definition call_tool (name : string) (args : option Args.t) : M W ToolResult :=
  try_catch (dispatch name args) on_error.

End Handler.

(* ===================================================================== *)
(** ** Observations on a run *)
(* ===================================================================== *)

Definition outcome_of (A S : Type) (x : Outcome A * S * list Event) : Outcome A :=
  fst (fst x).
Definition state_of (A S : Type) (x : Outcome A * S * list Event) : S :=
  snd (fst x).
Definition trace_of (A S : Type) (x : Outcome A * S * list Event) : list Event :=
  snd x.

(** The invocations of [this.http.get] in a trace, in order. *)
Definition invocations (t : list Event) : list (string * Params) :=
  flat_map (fun e => match e with HttpGet url q => [(url, q)] | _ => [] end) t.

(** The credential exchanges in a trace. *)
Definition exchanges (t : list Event) : list (string * Params) :=
  flat_map (fun e => match e with TokenPost url f => [(url, f)] | _ => [] end) t.

(** [ceil(L / n)] on natural numbers. *)
Definition ceil_div (L n : nat) : nat := (L + (n - 1)) / n.

(** A list without its repetitions, each element at its first occurrence. *)
Fixpoint first_occurrences (l : list string) : list string :=
  match l with
  | [] => []
  | x :: t => x :: filter (fun y => negb (String.eqb x y)) (first_occurrences t)
  end.

(** The first [cap] elements where there is a cap, everything otherwise. *)
Definition truncated (cap : option nat) (l : list string) : list string :=
  match cap with Some n => firstn n l | None => l end.

Section Attempts.

Context {W : Type} {world : World W}.
Variable r : Revision.

(** The state after the pacing delay that follows batch [batchIdx]. *)
Definition paced (batchIdx n : nat) (s : State W) : State W :=
  if (batchIdx <? n - 1)%nat then (fst s, after_timeout 100 (snd s)) else s.

(** How the pricing call of each remaining batch settles, in order, when
    the loop runs from state [s]. *)
Fixpoint attempts (params : Args.t) (rateCodes : list string)
         (remaining : list (list string)) (batchIdx n : nat) (s : State W)
  : list (Outcome (option (list HotelOffer.t))) :=
  match remaining with
  | [] => []
  | batch :: rest =>
      let q := requestParams r params rateCodes batch in
      let x := http_get offers_url q (get_offers q) s in
      outcome_of x
      :: attempts params rateCodes rest (S batchIdx) n (paced batchIdx n (state_of x))
  end.

(** What a settled pricing call contributes: the enriched hotels with
    inventory of a success, nothing of a failure. *)
Definition contribution (o : Outcome (option (list HotelOffer.t))) : list HotelOffer.t :=
  match o with
  | Return data => filter has_inventory (map (enrichHotel r) (data ?? []))
  | Throw _ => []
  end.

End Attempts.

(* ===================================================================== *)
(** ** A scripted world, for running the code on concrete inputs *)
(* ===================================================================== *)

Module Scripted.

(** The clock and, for each endpoint, the answers still to be given. *)
Record t : Type := mk {
  clock : Z;
  token_replies : list (Outcome AmadeusTokenResponse.t);
  offers_replies : list (Outcome (option (list HotelOffer.t)));
  content_replies : list (Outcome (option HotelContent.t))
}.

Definition network_error : Error := AxiosError None None "Network Error".

Definition server_error : Error :=
  AxiosError (Some 500%Z) None "Request failed with status code 500".

Definition next (A : Type) (l : list (Outcome A)) : Outcome A * list (Outcome A) :=
  match l with
  | x :: l' => (x, l')
  | [] => (Throw network_error, [])
  end.

#[global] Instance world : World t := {|
  Date_now := clock;
  post_token := fun _ _ w =>
    let '(o, l) := next (token_replies w) in
    (o, mk (clock w) l (offers_replies w) (content_replies w));
  get_hotels := fun _ _ _ w => (Throw network_error, w);
  get_offers := fun _ _ w =>
    let '(o, l) := next (offers_replies w) in
    (o, mk (clock w) (token_replies w) l (content_replies w));
  get_offer := fun _ _ _ w => (Throw network_error, w);
  get_content := fun _ _ w =>
    let '(o, l) := next (content_replies w) in
    (o, mk (clock w) (token_replies w) (offers_replies w) l);
  after_timeout := fun ms w =>
    mk (clock w + ms)%Z (token_replies w) (offers_replies w) (content_replies w)
|}.

(** A constructed client whose [accessToken] is [tok], expiring at [exp]. *)
Definition client (r : Revision) (tok : option string) (exp : Z) : AmadeusClient.t :=
  AmadeusClient.mk "id" "secret" None (production_baseUrl r)
    (String.append (production_baseUrl r) "/v1/security/oauth2/token")
    (Object_keys (SUPPLIER_CODES r)) tok exp.

Definition token (tok : string) : Outcome AmadeusTokenResponse.t :=
  Return (AmadeusTokenResponse.mk tok 1799 "Bearer").

(** A world at time [1000000] ms that holds a valid token. *)
Definition logged_in (r : Revision) (w : t) : State t :=
  (client r (Some "tok") (clock w + 600000)%Z, w).

(** [n] identifiers ["H0"], ["H1"], ... *)
Definition ids (n : nat) : list string :=
  map (fun k => String.append "H" (String_of (Z.of_nat k))) (seq 0 n).

Definition offer (id : string) (rateCode : option string) : Offer.t :=
  Offer.mk id "2026-01-10" "2026-01-12" rateCode None None None
           JNull JNull (JObj [("total", JStr "100.00")]) None [].

Definition hotel (id : string) (available : bool) (offers : option (list Offer.t))
  : HotelOffer.t :=
  HotelOffer.mk (Some "hotel-offers") (Hotel.mk id id None None []) available offers None.

Definition stay (hotelIds : option (list string)) : Args.t :=
  Args.mk None None None None None None None None None hotelIds
          (Some "2026-01-10") (Some "2026-01-12")
          None None None None None None None None None None.

(** A client with a valid token and an upstream that answers nothing. *)
Definition idle (r : Revision) : State t :=
  logged_in r (mk 1000000 [] [] []).

(** Three pricing answers: the first and the third succeed, the second
    fails. *)
Definition second_of_three_fails : t :=
  mk 1000000 []
     [ Return (Some [ hotel "H0" true (Some [offer "o1" (Some "APS")]);
                      hotel "H1" false (Some [offer "o2" (Some "APS")]);
                      hotel "H2" true None;
                      hotel "H3" true (Some []) ]);
       Throw server_error;
       Return (Some [ hotel "H40" true (Some [offer "o3" (Some " PP6 ");
                                               offer "o4" (Some "XXX")]) ]) ]
     [].

(** A client whose token has [left] milliseconds to live. *)
Definition expiring_in (left : Z) : State t :=
  (client Enterprise (Some "tok") (1000000 + left)%Z,
   mk 1000000 [token "new"] [] []).

End Scripted.

(* ===================================================================== *)
(** ** Notions used in the statements *)
(* ===================================================================== *)

(** The code that the enrichment looks up. *)
Definition lookup_code (offer : Offer.t) : string :=
  match Offer.rateCode offer with Some c => JS.trim c | None => "" end.

(** What a credential exchange from state [s] amounts to. *)
Definition exchanged {W : Type} {world : World W} (s : State W) : Prop :=
  let c := fst s in
  let url := AmadeusClient.authUrl c in
  exchanges (trace_of (getAccessToken s)) = [(url, token_form c)]
  /\ match post_token url (token_form c) (snd s) with
     | (Return response, w) =>
         getAccessToken s
         = (Return (AmadeusTokenResponse.access_token response),
            (AmadeusClient.set_token c
               (AmadeusTokenResponse.access_token response)
               (Date_now (snd s) + AmadeusTokenResponse.expires_in response * 1000)%Z,
             w),
            [TokenPost url (token_form c)])
     | (Throw e, w) =>
         getAccessToken s = (Throw e, (c, w), [TokenPost url (token_form c)])
     end.

(** The error of a failed input validation. *)
Definition validation_error (message : string) : Error := McpError InvalidParams message.

(* ===================================================================== *)
(** ** Further observations *)
(* ===================================================================== *)

(** The pacing delays in a trace. *)
Definition timeouts (t : list Event) : list Z :=
  flat_map (fun e => match e with SetTimeout ms => [ms] | _ => [] end) t.

(** The requests that left the interceptor, with their [Authorization]. *)
Definition requests (t : list Event) : list (string * Params * string) :=
  flat_map (fun e => match e with Sent url q a => [(url, q, a)] | _ => [] end) t.

(** The lines written with [console.error]. *)
Definition console (t : list Event) : list string :=
  flat_map (fun e => match e with ConsoleError line => [line] | _ => [] end) t.

(** The fields that the constructor sets and nothing should change. *)
Definition same_config (c c' : AmadeusClient.t) : Prop :=
  AmadeusClient.clientId c' = AmadeusClient.clientId c
  /\ AmadeusClient.clientSecret c' = AmadeusClient.clientSecret c
  /\ AmadeusClient.guestOfficeId c' = AmadeusClient.guestOfficeId c
  /\ AmadeusClient.baseUrl c' = AmadeusClient.baseUrl c
  /\ AmadeusClient.authUrl c' = AmadeusClient.authUrl c
  /\ AmadeusClient.defaultSupplierCodes c' = AmadeusClient.defaultSupplierCodes c.

(** A computation that leaves the configuration of the client alone. *)
Definition keeps_config {W : Type} {A : Type} (m : M W A) : Prop :=
  forall s, same_config (fst s) (fst (state_of (m s))).

Fixpoint has_comma (s : string) : bool :=
  match s with
  | EmptyString => false
  | String c r => Ascii.eqb c ","%char || has_comma r
  end.

(** The line that the [catch] of batch [batchIdx] logs, if any. *)
Definition batch_log (A : Type) (batchIdx : nat) (o : Outcome A) : list Event :=
  match o with
  | Throw err =>
      if isAxiosError err
      then [ConsoleError
              (String.append "[amadeus] Batch "
                 (String.append (String_of (Z.of_nat (batchIdx + 1))) " error:"))]
      else []
  | Return _ => []
  end.

(** The delay after batch [batchIdx] of [n], if any. *)
Definition batch_pause (batchIdx n : nat) : list Event :=
  if (batchIdx <? n - 1)%nat then [SetTimeout 100] else [].

Section LoopTrace.

Context {W : Type} {world : World W}.
Variable r : Revision.

(** The events of the pricing loop over the remaining batches. *)
Fixpoint loop_trace (params : Args.t) (rateCodes : list string)
         (remaining : list (list string)) (batchIdx n : nat) (s : State W)
  : list Event :=
  match remaining with
  | [] => []
  | batch :: rest =>
      let q := requestParams r params rateCodes batch in
      let x := http_get offers_url q (get_offers q) s in
      trace_of x ++ batch_log batchIdx (outcome_of x) ++ batch_pause batchIdx n
      ++ loop_trace params rateCodes rest (S batchIdx) n (paced batchIdx n (state_of x))
  end.

(** The state in which the pricing loop ends. *)
Fixpoint loop_state (params : Args.t) (rateCodes : list string)
         (remaining : list (list string)) (batchIdx n : nat) (s : State W)
  : State W :=
  match remaining with
  | [] => s
  | batch :: rest =>
      let q := requestParams r params rateCodes batch in
      let x := http_get offers_url q (get_offers q) s in
      loop_state params rateCodes rest (S batchIdx) n (paced batchIdx n (state_of x))
  end.

End LoopTrace.

(** An offer with other values in the two client-side fields. *)
Definition with_derived (offer : Offer.t) (supplierName : option string)
           (isNegotiatedRate : option bool) : Offer.t :=
  Offer.mk (Offer.id offer) (Offer.checkInDate offer) (Offer.checkOutDate offer)
           (Offer.rateCode offer) supplierName isNegotiatedRate
           (Offer.boardType offer) (Offer.room offer) (Offer.guests offer)
           (Offer.price offer) (Offer.policies offer) (Offer.rest offer).

(* ===================================================================== *)
(** ** [getEnvironment] and the shaping of hotel content *)
(* ===================================================================== *)

(** [getEnvironment()]; it reads [process.env.AMADEUS_ENV] like the
    constructor does. *)
Definition getEnvironment (r : Revision) (env : Env.t) : string :=
  let isTest := match Env.AMADEUS_ENV env with
                | Some e => String.eqb e "test"
                | None => false
                end in
  if isTest then "UAT (test.travel.api.amadeus.com)"
  else match r with
       | Enterprise => "Production (travel.api.amadeus.com)"
       | Earlier => "Production (api.amadeus.com)"
       end.

(** [s.includes(needle)] on strings. *)
Fixpoint string_includes (needle s : string) : bool :=
  String.prefix needle s
  || match s with
     | EmptyString => false
     | String _ rest => string_includes needle rest
     end.

(** An element of [HotelContent.basic.media[i].mediaScales]. *)
Module MediaScale.
Record t : Type := mk {
  href : string;
  width : option Z;
  height : option Z
}.
End MediaScale.

(** An element of [HotelContent.basic.media]; [text] is
    [description?.text]. *)
Module Media.
Record t : Type := mk {
  category : option string;
  text : option string;
  mediaScales : option (list MediaScale.t)
}.
End Media.

(** The image that the handler takes from one media entry:
    [m.mediaScales?.find((s) => s.href.includes("/F.jpg")) ?? m.mediaScales?.[0]]. *)
Definition image_of (m : Media.t) : option MediaScale.t :=
  match Media.mediaScales m with
  | None => None
  | Some scales =>
      match find (fun s => string_includes "/F.jpg" (MediaScale.href s)) scales with
      | Some fScale => Some fScale
      | None => hd_error scales
      end
  end.

(** [images.slice(0, 10)] after the [forEach] over [content.basic?.media]. *)
Definition content_images (media : option (list Media.t)) : list string :=
  JS.slice 0 10
    (flat_map (fun m => match image_of m with
                        | Some img => [MediaScale.href img]
                        | None => []
                        end)
              (media ?? [])).

(** [content.basic?.media?.find((m) => m.description?.text)?.description?.text]. *)
Definition content_description (media : option (list Media.t)) : option string :=
  match find (fun m => JS.truthy (Media.text m)) (media ?? []) with
  | Some m => Media.text m
  | None => None
  end.

(** How the handler passes on the outcome of a client call whose result
    it shapes with [shape]: an axios error becomes an [isError] result with
    the upstream status and payload, an [McpError] is rethrown, anything
    else is rethrown as an [InternalError]. *)
Definition surfaced (A : Type) (shape : A -> ToolResult) (o : Outcome A)
  : Outcome ToolResult :=
  match o with
  | Return a => Return (shape a)
  | Throw (AxiosError status data _) => Return (ApiError status data)
  | Throw (McpError code message) => Throw (McpError code message)
  | Throw e => Throw (McpError InternalError (message_of e))
  end.

(** The names of the six tools. *)
Definition tool_names : list string :=
  [ "search_hotels_by_city"; "search_hotels_by_geocode"; "get_hotel_offers";
    "get_hotel_offer_details"; "get_hotel_content"; "list_supplier_codes" ].

(* ===================================================================== *)
(** ** Sample inputs *)
(* ===================================================================== *)

Module Sample.

Definition by_city (cityCode : string) (radius : option Z) : Args.t :=
  Args.mk (Some cityCode) None None radius None None None None None None
          None None None None None None None None None None None None.

Definition by_geocode (latitude longitude : string) : Args.t :=
  Args.mk None (Some latitude) (Some longitude) None None None None None None None
          None None None None None None None None None None None None.

Definition offer_details (offerId : string) : Args.t :=
  Args.mk None None None None None None None None None None
          None None None None None None None None None None (Some offerId) None.


Definition env (AMADEUS_ENV AMADEUS_RATE_CODES : option string) : Env.t :=
  Env.mk AMADEUS_ENV (Some "id") (Some "secret") None AMADEUS_RATE_CODES.

(** A client without a token; the exchange will answer [tok], valid for
    [expires_in] seconds. *)
Definition logged_out (tok : string) (expires_in : Z) : State Scripted.t :=
  (Scripted.client Enterprise None 0,
   Scripted.mk 1000000 [Return (AmadeusTokenResponse.mk tok expires_in "Bearer")] [] []).

(** A client without a token and an exchange that fails. *)
Definition locked_out : State Scripted.t :=
  (Scripted.client Enterprise None 0, Scripted.mk 1000000 [] [] []).


Definition scale (href : string) : MediaScale.t := MediaScale.mk href None None.

(** Three media entries: one with an F scale in second place, one without
    any F scale, one without scales. *)
Definition media : list Media.t :=
  [ Media.mk (Some "EXTERIOR") None
             (Some [scale "https://img/1/B.jpg"; scale "https://img/1/F.jpg"]);
    Media.mk (Some "ROOM") (Some "A quiet room")
             (Some [scale "https://img/2/B.jpg"; scale "https://img/2/M.jpg"]);
    Media.mk (Some "LOBBY") None None ].

End Sample.

(* ===================================================================== *)
(** * Properties *)
(* ===================================================================== *)
(* ===================================================================== *)
(** ** Lists, sets and first occurrences *)
(* ===================================================================== *)

(** Closes [~ In x l] for string literals, [x] different from all of [l]. *)
Ltac not_listed :=
  let H := fresh in
  intros H; simpl in H;
  repeat (destruct H as [H|H]; [discriminate H|]); exact H.

Lemma includes_In x a : JS.includes x a = true <-> In x a.
Proof.
  unfold JS.includes. rewrite existsb_exists. split.
  - intros [y [Hy E]]. apply String.eqb_eq in E. now subst.
  - intros Hx. exists x. split; [assumption | apply String.eqb_refl].
Qed.

Lemma includes_false x a : JS.includes x a = false <-> ~ In x a.
Proof.
  rewrite <- includes_In. destruct (JS.includes x a); split; congruence.
Qed.

Lemma filter_filter (A : Type) (f g : A -> bool) l :
  filter f (filter g l) = filter (fun x => g x && f x) l.
Proof.
  induction l as [|x l IH]; simpl; [reflexivity|].
  destruct (g x); simpl; [destruct (f x)|]; now rewrite IH.
Qed.

Lemma In_first_occurrences x l : In x (first_occurrences l) <-> In x l.
Proof.
  induction l as [|y l IH]; simpl; [tauto|].
  rewrite filter_In, IH, negb_true_iff, String.eqb_neq.
  destruct (string_dec y x); [subst|]; tauto.
Qed.

Lemma NoDup_first_occurrences l : NoDup (first_occurrences l).
Proof.
  induction l as [|x l IH]; simpl; constructor.
  - rewrite filter_In, String.eqb_refl. simpl. intros [_ H]. discriminate.
  - now apply NoDup_filter.
Qed.

(** Adding the elements of [l] to the set [acc], one by one. *)
Lemma fold_Set_add l : forall acc,
  fold_left (fun s x => JS.Set_add x s) l acc
  = acc ++ filter (fun y => negb (JS.includes y acc)) (first_occurrences l).
Proof.
  induction l as [|x l IH]; intros acc; simpl.
  - now rewrite app_nil_r.
  - rewrite IH. unfold JS.Set_add. rewrite filter_filter.
    destruct (JS.includes x acc) eqn:E; simpl.
    + f_equal. apply filter_ext_in. intros y _.
      destruct (String.eqb x y) eqn:Exy; simpl; [|reflexivity].
      apply String.eqb_eq in Exy. subst. now rewrite E.
    + rewrite <- app_assoc. simpl. do 2 f_equal. apply filter_ext. intros y.
      unfold JS.includes. rewrite existsb_app. simpl.
      rewrite orb_false_r, negb_orb, (String.eqb_sym y x). apply andb_comm.
Qed.

(** [[...new Set(a)]] keeps each element at its first occurrence. *)
Lemma new_Set_first_occurrences a : JS.new_Set a = first_occurrences a.
Proof.
  unfold JS.new_Set. rewrite fold_Set_add. simpl.
  induction (first_occurrences a) as [|x l IH]; simpl; now f_equal.
Qed.

Lemma first_occurrences_app a b :
  first_occurrences (a ++ b)
  = first_occurrences a
    ++ filter (fun y => negb (JS.includes y a)) (first_occurrences b).
Proof.
  induction a as [|x a IH]; simpl.
  - induction (first_occurrences b) as [|y l IHl]; simpl; now f_equal.
  - f_equal. rewrite IH, filter_app, filter_filter. f_equal.
    apply filter_ext. intros y. rewrite (String.eqb_sym y x), negb_orb.
    apply andb_comm.
Qed.

Lemma nth_error_firstn_Some (A : Type) (l : list A) n i x :
  nth_error (firstn n l) i = Some x -> i < n /\ nth_error l i = Some x.
Proof.
  revert l i. induction n as [|n IH]; intros [|y l] [|i]; simpl; try discriminate.
  - intros H. split; [lia | assumption].
  - intros H. apply IH in H. split; [lia | tauto].
Qed.

(* ===================================================================== *)
(** ** The merged rate codes *)
(* ===================================================================== *)

Lemma truncated_nth_error cap l i x :
  nth_error (truncated cap l) i = Some x ->
  nth_error l i = Some x /\ forall n, cap = Some n -> i < n.
Proof.
  destruct cap as [n|]; simpl; intros H.
  - apply nth_error_firstn_Some in H. split; [tauto|]. intros m [= <-]. tauto.
  - split; [assumption | discriminate].
Qed.

Lemma truncated_NoDup cap l : NoDup l -> NoDup (truncated cap l).
Proof.
  destruct cap as [n|]; simpl; [|trivial].
  intros H. rewrite <- (firstn_skipn n l) in H. now apply NoDup_app_remove_r in H.
Qed.

Lemma truncated_In cap l x : In x (truncated cap l) -> In x l.
Proof.
  destruct cap as [n|]; simpl; [|trivial].
  intros H. rewrite <- (firstn_skipn n l). apply in_or_app. now left.
Qed.

(** Once the truncation reaches past the first part, all of it is kept. *)
Lemma truncated_keeps_prefix cap (A B : list string) j y x :
  nth_error (truncated cap (A ++ B)) j = Some y -> length A <= j ->
  In x A -> In x (truncated cap (A ++ B)).
Proof.
  intros Hj Hle Hx. apply truncated_nth_error in Hj. destruct Hj as [_ Hcap].
  destruct cap as [n|]; simpl.
  - specialize (Hcap n eq_refl). rewrite firstn_app. apply in_or_app. left.
    rewrite firstn_all2; [assumption | lia].
  - apply in_or_app. now left.
Qed.

Lemma merged_rateCodes_eq r callerCodes defaults :
  merged_rateCodes r callerCodes defaults
  = truncated (MAX_RATE_CODES r)
      (first_occurrences (callerCodes ?? [])
       ++ filter (fun d => negb (JS.includes d (callerCodes ?? [])))
                 (first_occurrences defaults)).
Proof.
  unfold merged_rateCodes. rewrite new_Set_first_occurrences, first_occurrences_app.
  destruct (MAX_RATE_CODES r) as [cap|]; simpl; [|reflexivity].
  unfold JS.slice. simpl. now rewrite Nat.sub_0_r.
Qed.

(** C2.  The rate codes sent with a pricing query have no duplicates; they
    are the caller's codes followed by the default codes the caller did not
    give, each at its first occurrence, cut to [MAX_RATE_CODES] where the
    revision has that cap.  Hence every caller code stands before every
    default-only code, nothing is lost when everything fits, and a
    default-only code is present only if every caller code is. *)
Theorem merged_rateCodes_caller_first (r : Revision)
        (callerCodes : option (list string)) (defaults : list string) :
  let caller := callerCodes ?? [] in
  let merged := merged_rateCodes r callerCodes defaults in
  NoDup merged
  /\ merged = truncated (MAX_RATE_CODES r)
                (first_occurrences caller
                 ++ filter (fun d => negb (JS.includes d caller))
                           (first_occurrences defaults))
  /\ (forall x, In x merged -> In x caller \/ In x defaults)
  /\ (forall cap, MAX_RATE_CODES r = Some cap -> length merged <= cap)
  /\ (match MAX_RATE_CODES r with
      | Some cap => length (first_occurrences (caller ++ defaults)) <= cap
      | None => True
      end ->
      forall x, In x caller \/ In x defaults -> In x merged)
  /\ (forall i j c d,
        nth_error merged i = Some c -> nth_error merged j = Some d ->
        In c caller -> ~ In d caller -> i < j)
  /\ (forall d, In d merged -> ~ In d caller ->
      forall c, In c caller -> In c merged).
Proof.
  intros caller merged.
  assert (E : merged = truncated (MAX_RATE_CODES r)
                (first_occurrences caller
                 ++ filter (fun d => negb (JS.includes d caller))
                           (first_occurrences defaults)))
    by apply merged_rateCodes_eq.
  set (A := first_occurrences caller) in *.
  set (B := filter (fun d => negb (JS.includes d caller))
                   (first_occurrences defaults)) in *.
  assert (HA : forall x, In x A <-> In x caller)
    by (intros x; apply In_first_occurrences).
  assert (HB : forall x, In x B <-> In x defaults /\ ~ In x caller).
  { intros x. unfold B.
    now rewrite filter_In, In_first_occurrences, negb_true_iff, includes_false. }
  assert (HAB : A ++ B = first_occurrences (caller ++ defaults))
    by (symmetry; apply first_occurrences_app).
  repeat split.
  - rewrite E. apply truncated_NoDup. rewrite HAB. apply NoDup_first_occurrences.
  - exact E.
  - intros x Hx. rewrite E in Hx. apply truncated_In, in_app_or in Hx.
    destruct Hx as [Hx|Hx]; [left; now apply HA | right; now apply HB].
  - intros cap Hcap. rewrite E, Hcap. simpl. apply firstn_le_length.
  - intros Hfit x Hx. rewrite E.
    assert (Hin : In x (A ++ B)).
    { rewrite HAB. apply In_first_occurrences, in_or_app. tauto. }
    destruct (MAX_RATE_CODES r) as [cap|]; simpl; [|assumption].
    rewrite firstn_all2; [assumption | now rewrite HAB].
  - intros i j c d Hi Hj Hc Hd. rewrite E in Hi, Hj.
    apply truncated_nth_error in Hi, Hj. destruct Hi as [Hi _], Hj as [Hj _].
    assert (i < length A).
    { destruct (Nat.lt_ge_cases i (length A)) as [|Hge]; [assumption|].
      rewrite nth_error_app2 in Hi by assumption.
      apply nth_error_In, HB in Hi. tauto. }
    assert (length A <= j).
    { destruct (Nat.lt_ge_cases j (length A)) as [Hlt|]; [|assumption].
      rewrite nth_error_app1 in Hj by assumption.
      apply nth_error_In, HA in Hj. tauto. }
    lia.
  - intros d Hd Hnd c Hc. rewrite E in Hd |- *.
    apply In_nth_error in Hd. destruct Hd as [j Hj].
    apply truncated_keeps_prefix with (j := j) (y := d); [assumption| |now apply HA].
    apply truncated_nth_error in Hj. destruct Hj as [Hj _].
    destruct (Nat.lt_ge_cases j (length A)) as [Hlt|]; [|assumption].
    rewrite nth_error_app1 in Hj by assumption.
    apply nth_error_In, HA in Hj. tauto.
Qed.

(* ===================================================================== *)
(** ** Batching *)
(* ===================================================================== *)

Lemma batches_from_body (allIds : list string) i batches :
  batches_from allIds i batches =
  if lt_dec i (length allIds)
  then batches_from allIds (i + BATCH_SIZE)
         (batches ++ [JS.slice i (i + BATCH_SIZE) allIds])
  else batches.
Proof.
  rewrite batches_from_equation_1.
  destruct (lt_dec i (length allIds)); reflexivity.
Qed.

(** The loop only appends to [batches]. *)
Lemma batches_from_acc (allIds : list string) : forall n i batches,
  length allIds - i <= n ->
  batches_from allIds i batches = batches ++ batches_from allIds i [].
Proof.
  induction n as [|n IH]; intros i batches Hn;
    rewrite (batches_from_body allIds i batches), (batches_from_body allIds i []);
    destruct (lt_dec i (length allIds)) as [Hlt|Hge];
    try (now rewrite app_nil_r); try lia.
  rewrite (IH _ (batches ++ _)), (IH _ ([] ++ _)) by (unfold BATCH_SIZE; lia).
  now rewrite <- app_assoc.
Qed.

Lemma batches_from_step (allIds : list string) i :
  i < length allIds ->
  batches_from allIds i []
  = JS.slice i (i + BATCH_SIZE) allIds :: batches_from allIds (i + BATCH_SIZE) [].
Proof.
  intros Hlt. rewrite batches_from_body.
  destruct (lt_dec i (length allIds)); [|contradiction].
  now rewrite batches_from_acc with (n := length allIds) by lia.
Qed.

Lemma batches_from_stop (allIds : list string) i :
  length allIds <= i -> batches_from allIds i [] = [].
Proof.
  intros Hge. rewrite batches_from_body.
  destruct (lt_dec i (length allIds)); [lia | reflexivity].
Qed.

(** Induction along the loop: from [i] to [i + BATCH_SIZE]. *)
Lemma batches_from_ind (allIds : list string) (P : nat -> list (list string) -> Prop) :
  (forall i, length allIds <= i -> P i []) ->
  (forall i, i < length allIds ->
     P (i + BATCH_SIZE) (batches_from allIds (i + BATCH_SIZE) []) ->
     P i (JS.slice i (i + BATCH_SIZE) allIds
          :: batches_from allIds (i + BATCH_SIZE) [])) ->
  forall i, P i (batches_from allIds i []).
Proof.
  intros Hstop Hstep.
  assert (H : forall n i, length allIds - i <= n -> P i (batches_from allIds i [])).
  { induction n as [|n IH]; intros i Hn;
      destruct (Nat.lt_ge_cases i (length allIds)) as [Hlt|Hge];
      try (rewrite batches_from_stop by assumption; now apply Hstop); try lia.
    rewrite batches_from_step by assumption. apply Hstep; [assumption|].
    apply IH. unfold BATCH_SIZE. lia. }
  intros i. now apply (H (length allIds - i)).
Qed.

Lemma slice_length (A : Type) (l : list A) i n :
  length (JS.slice i (i + n) l) = Nat.min n (length l - i).
Proof.
  unfold JS.slice. rewrite length_firstn, length_skipn. f_equal. lia.
Qed.

Lemma batches_from_concat (allIds : list string) i :
  concat (batches_from allIds i []) = skipn i allIds.
Proof.
  apply batches_from_ind with (P := fun i bs => concat bs = skipn i allIds).
  - intros j Hj. now rewrite skipn_all2.
  - intros j Hj IH. simpl. rewrite IH. unfold JS.slice.
    replace (j + BATCH_SIZE - j) with BATCH_SIZE by lia.
    rewrite Nat.add_comm, <- skipn_skipn. apply firstn_skipn.
Qed.

Lemma batches_from_sizes (allIds : list string) i :
  Forall (fun batch => 1 <= length batch <= BATCH_SIZE) (batches_from allIds i []).
Proof.
  apply batches_from_ind
    with (P := fun _ bs => Forall (fun batch => 1 <= length batch <= BATCH_SIZE) bs).
  - constructor.
  - intros j Hj IH. constructor; [|assumption].
    rewrite slice_length. unfold BATCH_SIZE. lia.
Qed.

Lemma batches_from_length (allIds : list string) i :
  length (batches_from allIds i []) = ceil_div (length allIds - i) BATCH_SIZE.
Proof.
  apply batches_from_ind
    with (P := fun i bs => length bs = ceil_div (length allIds - i) BATCH_SIZE).
  - intros j Hj. replace (length allIds - j) with 0 by lia. reflexivity.
  - intros j Hj IH. cbn [length]. rewrite IH. unfold ceil_div, BATCH_SIZE.
    change (20 - 1) with 19.
    destruct (Nat.lt_ge_cases (length allIds - j) 20) as [Hs|Hs].
    + replace (length allIds - (j + 20)) with 0 by lia.
      replace ((0 + 19) / 20) with 0 by reflexivity.
      apply Nat.div_unique with (r := length allIds - j - 1); lia.
    + replace (length allIds - j + 19) with (length allIds - (j + 20) + 19 + 1 * 20)
        by lia.
      rewrite Nat.div_add by discriminate. lia.
Qed.

Lemma batches_from_nth (allIds : list string) : forall k i,
  k < length (batches_from allIds i []) ->
  nth_error (batches_from allIds i []) k
  = Some (JS.slice (i + BATCH_SIZE * k) (i + BATCH_SIZE * k + BATCH_SIZE) allIds).
Proof.
  induction k as [|k IH]; intros i Hk;
    destruct (Nat.lt_ge_cases i (length allIds)) as [Hlt|Hge];
    try (rewrite batches_from_stop in Hk by assumption; cbn [length] in Hk; lia);
    rewrite batches_from_step in Hk |- * by assumption;
    cbn [nth_error length] in *.
  - now rewrite Nat.mul_0_r, Nat.add_0_r.
  - rewrite IH by lia. do 2 f_equal; unfold BATCH_SIZE; lia.
Qed.

(* ===================================================================== *)
(** ** Running the methods *)
(* ===================================================================== *)

Lemma invocations_app t1 t2 : invocations (t1 ++ t2) = invocations t1 ++ invocations t2.
Proof. unfold invocations. now rewrite flat_map_app. Qed.

Lemma accepted_contribution r data :
  accepted r data = filter has_inventory (map (enrichHotel r) (data ?? [])).
Proof. destruct data as [[|h l]|]; reflexivity. Qed.

Section Runs.

Context {W : Type} {world : World W}.
Variable r : Revision.

(** The two paths of [getAccessToken]. *)
Lemma getAccessToken_run (s : State W) :
  let c := fst s in
  let url := AmadeusClient.authUrl c in
  getAccessToken s =
  if still_valid c (Date_now (snd s))
  then (Return (AmadeusClient.accessToken c ?? ""), s, [])
  else
    match post_token url (token_form c) (snd s) with
    | (Return response, w) =>
        (Return (AmadeusTokenResponse.access_token response),
         (AmadeusClient.set_token c
            (AmadeusTokenResponse.access_token response)
            (Date_now (snd s) + AmadeusTokenResponse.expires_in response * 1000)%Z,
          w),
         [TokenPost url (token_form c)])
    | (Throw e, w) => (Throw e, (c, w), [TokenPost url (token_form c)])
    end.
Proof.
  destruct s as [c w]. unfold getAccessToken, bind, now, this, ret, emit, upstream, assign.
  cbn [fst snd]. destruct (still_valid c (Date_now w)); [reflexivity|].
  cbn [fst snd]. destruct (post_token _ _ w) as [[response|e] w']; reflexivity.
Qed.

Lemma getAccessToken_invocations (s : State W) :
  invocations (trace_of (getAccessToken s)) = [].
Proof.
  rewrite getAccessToken_run. cbv zeta.
  destruct (still_valid _ _); [reflexivity|].
  destruct (post_token _ _ _) as [[response|e] w']; reflexivity.
Qed.

(** [this.http.get]: the invocation, the interceptor, the request. *)
Lemma http_get_run (A : Type) url q (call : string -> W -> Outcome A * W) (s : State W) :
  http_get url q call s =
  match getAccessToken s with
  | (Return token, s1, t1) =>
      let auth := String.append "Bearer " token in
      let '(o, w) := call auth (snd s1) in
      (o, (fst s1, w), HttpGet url q :: t1 ++ [Sent url q auth])
  | (Throw e, s1, t1) => (Throw e, s1, HttpGet url q :: t1)
  end.
Proof.
  unfold http_get, authorization, bind, ret, emit, upstream. simpl.
  destruct (getAccessToken s) as [[[token|e] s1] t1]; [|reflexivity].
  simpl. destruct (call _ (snd s1)) as [o w]. simpl.
  now rewrite app_nil_r.
Qed.

Lemma http_get_invocations (A : Type) url q (call : string -> W -> Outcome A * W)
      (s : State W) :
  invocations (trace_of (http_get url q call s)) = [(url, q)].
Proof.
  rewrite http_get_run. pose proof (getAccessToken_invocations s) as Ht.
  destruct (getAccessToken s) as [[[token|e] s1] t1]; unfold trace_of in *; simpl in *.
  - destruct (call _ (snd s1)) as [o w]. simpl.
    now rewrite invocations_app, Ht.
  - now rewrite Ht.
Qed.

(** One turn of the loop never throws: it returns what the pricing call
    contributes and invokes [this.http.get] exactly once. *)
Lemma one_batch_run params rateCodes batch batchIdx n (s : State W) :
  let q := requestParams r params rateCodes batch in
  let x := http_get offers_url q (get_offers q) s in
  exists t,
    one_batch r params rateCodes batch batchIdx n s
    = (Return (contribution r (outcome_of x)), paced batchIdx n (state_of x), t)
    /\ invocations t = [(offers_url, q)].
Proof.
  intros q x. pose proof (http_get_invocations offers_url q (get_offers q) s) as Hi.
  fold x in Hi. unfold one_batch, bind, try_catch. fold q. fold x.
  destruct x as [[[data|e] s1] t1]; unfold trace_of, outcome_of, state_of, paced in *;
    simpl in *.
  - rewrite accepted_contribution.
    destruct (batchIdx <? n - 1)%nat; simpl; eexists; (split; [reflexivity|]);
      now rewrite !invocations_app, Hi.
  - destruct (isAxiosError e); simpl;
      destruct (batchIdx <? n - 1)%nat; simpl; eexists; (split; [reflexivity|]);
      now rewrite !invocations_app, Hi.
Qed.

(** The whole loop: it returns, with the contributions of the settled
    calls appended in order, after one invocation per remaining batch. *)
Lemma batch_loop_run params rateCodes n : forall remaining batchIdx allResults (s : State W),
  exists s' t,
    batch_loop r params rateCodes remaining batchIdx n allResults s
    = (Return (allResults
               ++ flat_map (contribution r)
                    (attempts r params rateCodes remaining batchIdx n s)),
       s', t)
    /\ invocations t
       = map (fun batch => (offers_url, requestParams r params rateCodes batch))
             remaining.
Proof.
  induction remaining as [|batch rest IH]; intros batchIdx allResults s.
  - exists s, []. simpl. now rewrite app_nil_r.
  - destruct (one_batch_run params rateCodes batch batchIdx n s) as [t1 [E1 I1]].
    cbv zeta in E1.
    destruct (IH (S batchIdx)
                 (allResults ++ contribution r
                    (outcome_of (http_get offers_url
                       (requestParams r params rateCodes batch)
                       (get_offers (requestParams r params rateCodes batch)) s)))
                 (paced batchIdx n
                    (state_of (http_get offers_url
                       (requestParams r params rateCodes batch)
                       (get_offers (requestParams r params rateCodes batch)) s))))
      as [s' [t2 [E2 I2]]].
    exists s', (t1 ++ t2). split.
    + cbn [batch_loop attempts flat_map]. unfold bind at 1. rewrite E1, E2.
      now rewrite <- app_assoc.
    + rewrite invocations_app, I1, I2. reflexivity.
Qed.

(** [getHotelOffers] on a list of identifiers. *)
Lemma getHotelOffers_run params allIds (s : State W) :
  Args.hotelIds params = Some allIds ->
  let rateCodes := merged_rateCodes r (Args.rateCodes params)
                     (AmadeusClient.defaultSupplierCodes (fst s)) in
  let batches := batches_of allIds in
  exists s' t,
    getHotelOffers r params s
    = (Return (flat_map (contribution r)
                 (attempts r params rateCodes batches 0 (length batches) s)),
       s', t)
    /\ invocations t
       = map (fun batch => (offers_url, requestParams r params rateCodes batch)) batches.
Proof.
  intros Hids rateCodes batches.
  destruct (batch_loop_run params rateCodes (length batches) batches 0 [] s)
    as [s' [t [E I]]].
  exists s', t. split; [|exact I].
  unfold getHotelOffers. rewrite Hids. unfold bind, this. simpl.
  fold batches. fold rateCodes. rewrite E. reflexivity.
Qed.

End Runs.

(* ===================================================================== *)
(** ** The batched pricing operation *)
(* ===================================================================== *)

Lemma has_inventory_true h :
  has_inventory h = true <->
  HotelOffer.available h = true /\ exists o l, HotelOffer.offers h = Some (o :: l).
Proof.
  unfold has_inventory. rewrite andb_true_iff, Nat.ltb_lt.
  destruct (HotelOffer.offers h) as [[|o l]|]; simpl; split; intros [Ha Ho];
    try lia; try (destruct Ho as [? [? ?]]; discriminate).
  - split; [assumption | now exists o, l].
  - split; [assumption | lia].
Qed.

Lemma contribution_has_inventory r o :
  Forall (fun h => has_inventory h = true) (contribution r o).
Proof.
  destruct o as [data|e]; simpl; [|constructor].
  apply Forall_forall. intros h Hh. now apply filter_In in Hh.
Qed.

Lemma attempts_length {W : Type} {world : World W} r params rateCodes n :
  forall remaining batchIdx (s : State W),
    length (attempts r params rateCodes remaining batchIdx n s) = length remaining.
Proof.
  induction remaining as [|batch rest IH]; intros batchIdx s; simpl;
    [reflexivity | now rewrite IH].
Qed.

(** C1.  For a list of [L] identifiers, [getHotelOffers] invokes
    [this.http.get] on the pricing endpoint exactly [ceil(L / 20)] times and
    on nothing else; the [k]-th invocation carries the comma-joined [k]-th
    batch, the batches have between 1 and 20 identifiers each, and they are
    the consecutive slices [allIds.slice(20k, 20k + 20)], so that put end to
    end they give back the input. *)
Theorem getHotelOffers_batches {W : Type} {world : World W} (r : Revision)
        (params : Args.t) (allIds : list string) (s : State W) :
  Args.hotelIds params = Some allIds ->
  let rateCodes := merged_rateCodes r (Args.rateCodes params)
                     (AmadeusClient.defaultSupplierCodes (fst s)) in
  let calls := invocations (trace_of (getHotelOffers r params s)) in
  let batches := batches_of allIds in
  calls = map (fun batch => (offers_url, requestParams r params rateCodes batch)) batches
  /\ length calls = ceil_div (length allIds) 20
  /\ (forall batch, assoc "hotelIds" (requestParams r params rateCodes batch)
                    = Some (JS.join_comma batch))
  /\ Forall (fun batch => 1 <= length batch <= 20) batches
  /\ concat batches = allIds
  /\ (forall k, k < ceil_div (length allIds) 20 ->
        nth_error batches k = Some (JS.slice (20 * k) (20 * k + 20) allIds)).
Proof.
  intros Hids rateCodes calls batches.
  destruct (getHotelOffers_run r params s Hids) as [s' [t [E I]]].
  assert (Hlen : length batches = ceil_div (length allIds) 20).
  { unfold batches, batches_of. rewrite batches_from_length. now rewrite Nat.sub_0_r. }
  assert (Hcalls : calls
            = map (fun batch => (offers_url, requestParams r params rateCodes batch))
                  batches).
  { unfold calls. rewrite E. exact I. }
  repeat split.
  - exact Hcalls.
  - now rewrite Hcalls, length_map.
  - apply (batches_from_sizes allIds 0).
  - apply (batches_from_concat allIds 0).
  - intros k Hk. rewrite <- Hlen in Hk. apply (batches_from_nth allIds) in Hk.
    exact Hk.
Qed.

(** C4.  [getHotelOffers] returns, and every hotel entry of its result has
    [available = true] and a non-empty [offers] array: an entry that is not
    available, or that has no offers or no [offers] property, is not in it. *)
Theorem getHotelOffers_only_available {W : Type} {world : World W} (r : Revision)
        (params : Args.t) (allIds : list string) (s : State W) :
  Args.hotelIds params = Some allIds ->
  exists results s' t,
    getHotelOffers r params s = (Return results, s', t)
    /\ Forall (fun h => HotelOffer.available h = true
                        /\ exists o l, HotelOffer.offers h = Some (o :: l)) results.
Proof.
  intros Hids. destruct (getHotelOffers_run r params s Hids) as [s' [t [E _]]].
  eexists _, s', t. split; [exact E|].
  apply Forall_forall. intros h Hh. apply has_inventory_true.
  apply in_flat_map in Hh. destruct Hh as [o [_ Hh]].
  pose proof (contribution_has_inventory r o) as Hf.
  rewrite Forall_forall in Hf. now apply Hf.
Qed.

(** C5.  Whatever fails upstream, [getHotelOffers] does not throw: it
    returns the concatenation, in batch order, of what each pricing call
    contributes, where a call that fails contributes nothing and a call that
    succeeds contributes its hotels, enriched, those with inventory only, in
    the order of the response. *)
Theorem getHotelOffers_partial_failure {W : Type} {world : World W} (r : Revision)
        (params : Args.t) (allIds : list string) (s : State W) :
  Args.hotelIds params = Some allIds ->
  let rateCodes := merged_rateCodes r (Args.rateCodes params)
                     (AmadeusClient.defaultSupplierCodes (fst s)) in
  let batches := batches_of allIds in
  let settled := attempts r params rateCodes batches 0 (length batches) s in
  length settled = length batches
  /\ (exists s' t,
        getHotelOffers r params s = (Return (flat_map (contribution r) settled), s', t))
  /\ (forall e, contribution r (Throw e) = [])
  /\ (forall hotels, contribution r (Return (Some hotels))
                     = filter has_inventory (map (enrichHotel r) hotels)).
Proof.
  intros Hids rateCodes batches settled.
  destruct (getHotelOffers_run r params s Hids) as [s' [t [E _]]].
  repeat split.
  - apply attempts_length.
  - now exists s', t.
Qed.

(* ===================================================================== *)
(** ** Enrichment *)
(* ===================================================================== *)

(** Enrichment touches [supplierName] and [isNegotiatedRate] only, and for
    every code that is not the name of a property of [Object.prototype] it
    tells a registry code from an unknown one. *)
Lemma enrichOffer_own_codes (r : Revision) (offer : Offer.t) :
  let e := enrichOffer r offer in
  (forall info, assoc (lookup_code offer) (SUPPLIER_CODES r) = Some info ->
     Offer.isNegotiatedRate e = Some true
     /\ Offer.supplierName e = Some (SupplierInfo.name info))
  /\ (assoc (lookup_code offer) (SUPPLIER_CODES r) = None ->
      assoc (lookup_code offer) Object_prototype = None ->
      Offer.isNegotiatedRate e = Some false /\ Offer.supplierName e = None)
  /\ (Offer.rateCode offer = None ->
      Offer.isNegotiatedRate e = Some false /\ Offer.supplierName e = None)
  /\ Offer.id e = Offer.id offer
  /\ Offer.checkInDate e = Offer.checkInDate offer
  /\ Offer.checkOutDate e = Offer.checkOutDate offer
  /\ Offer.rateCode e = Offer.rateCode offer
  /\ Offer.boardType e = Offer.boardType offer
  /\ Offer.room e = Offer.room offer
  /\ Offer.guests e = Offer.guests offer
  /\ Offer.price e = Offer.price offer
  /\ Offer.policies e = Offer.policies offer
  /\ Offer.rest e = Offer.rest offer.
Proof.
  unfold lookup_code, enrichOffer, SUPPLIER_CODES_get. cbn [Offer.isNegotiatedRate
    Offer.supplierName Offer.id Offer.checkInDate Offer.checkOutDate Offer.rateCode
    Offer.boardType Offer.room Offer.guests Offer.price Offer.policies Offer.rest].
  split; [|split; [|split]].
  - intros info Hown. now rewrite Hown.
  - intros Hown Hproto. now rewrite Hown, Hproto.
  - intros Habsent. rewrite Habsent. now destruct r.
  - repeat split.
Qed.

(** C3.  An offer whose rate code is [constructor] is tagged as a
    negotiated rate of the supplier [Object], in both revisions, although
    the registry has no such code: [SUPPLIER_CODES[code]] finds the
    property that the table inherits from [Object.prototype]. *)
Theorem enrichOffer_inherited_code (r : Revision) :
  let offer := Scripted.offer "O1" (Some "constructor") in
  ~ In "constructor" (Object_keys (SUPPLIER_CODES r))
  /\ Offer.isNegotiatedRate (enrichOffer r offer) = Some true
  /\ Offer.supplierName (enrichOffer r offer) = Some "Object".
Proof.
  destruct r; (split; [not_listed | split; reflexivity]).
Qed.

(* ===================================================================== *)
(** ** The token *)
(* ===================================================================== *)

Lemma getAccessToken_exchanged {W : Type} {world : World W} (s : State W) :
  still_valid (fst s) (Date_now (snd s)) = false -> exchanged s.
Proof.
  intros Hv. unfold exchanged. rewrite getAccessToken_run. cbv zeta. rewrite Hv.
  destruct (post_token _ _ _) as [[response|e] w]; split; reflexivity.
Qed.

Lemma getAccessToken_cached {W : Type} {world : World W} (s : State W) tok :
  AmadeusClient.accessToken (fst s) = Some tok ->
  still_valid (fst s) (Date_now (snd s)) = true ->
  getAccessToken s = (Return tok, s, []).
Proof.
  intros Ht Hv. rewrite getAccessToken_run. cbv zeta. now rewrite Hv, Ht.
Qed.

(** C6.  With a cached token and the clock more than 30 s before its
    expiry, [getAccessToken] returns the cached token, leaves the state as
    it is and does nothing else; otherwise, with no cached token or the
    expiry 30 s away or less, it posts one credential exchange, and on its
    success caches and returns the new token.  A token with 40 s left is
    reused, one with 20 s left is replaced. *)
Theorem getAccessToken_margin {W : Type} {world : World W} (s : State W) :
  let c := fst s in
  let t := Date_now (snd s) in
  (forall tok, AmadeusClient.accessToken c = Some tok -> tok <> "" ->
     (t < AmadeusClient.tokenExpiresAt c - 30000)%Z ->
     getAccessToken s = (Return tok, s, []))
  /\ (JS.truthy (AmadeusClient.accessToken c) = false
      \/ (AmadeusClient.tokenExpiresAt c - 30000 <= t)%Z ->
      exchanged s)
  /\ (forall tok, AmadeusClient.accessToken c = Some tok -> tok <> "" ->
      AmadeusClient.tokenExpiresAt c = (t + 40000)%Z ->
      getAccessToken s = (Return tok, s, []))
  /\ (AmadeusClient.tokenExpiresAt c = (t + 20000)%Z -> exchanged s).
Proof.
  intros c t.
  assert (Hreuse : forall tok, AmadeusClient.accessToken c = Some tok -> tok <> "" ->
     (t < AmadeusClient.tokenExpiresAt c - 30000)%Z ->
     getAccessToken s = (Return tok, s, [])).
  { intros tok Htok Hne Hlt. apply getAccessToken_cached; [assumption|].
    unfold still_valid. fold c. fold t. rewrite Htok. simpl.
    destruct tok; [congruence|]. simpl. now apply Z.ltb_lt. }
  assert (Hfresh : JS.truthy (AmadeusClient.accessToken c) = false
      \/ (AmadeusClient.tokenExpiresAt c - 30000 <= t)%Z -> exchanged s).
  { intros H. apply getAccessToken_exchanged. unfold still_valid. fold c. fold t.
    destruct H as [H|H]; [now rewrite H|].
    apply andb_false_iff. right. now apply Z.ltb_ge. }
  split; [|split; [|split]].
  - exact Hreuse.
  - exact Hfresh.
  - intros tok Htok Hne Hexp. apply Hreuse; [assumption..|lia].
  - intros Hexp. apply Hfresh. right. lia.
Qed.

(* ===================================================================== *)
(** ** Content *)
(* ===================================================================== *)

(** C9.  [getHotelContent] never throws.  When the fetch fails, be it in
    the interceptor or upstream, it returns [null]; it returns a content
    exactly when the fetch succeeds with one. *)
Theorem getHotelContent_never_throws {W : Type} {world : World W}
        (hotelId : string) (s : State W) :
  let url := String.append "/v1/reference-data/locations/hotels/" hotelId in
  let fetch := http_get url [] (get_content url) s in
  exists result s' t,
    getHotelContent hotelId s = (Return result, s', t)
    /\ invocations t = [(url, [])]
    /\ (forall e, outcome_of fetch = Throw e -> result = None)
    /\ (forall content, result = Some content <-> outcome_of fetch = Return (Some content)).
Proof.
  intros url fetch.
  pose proof (http_get_invocations url [] (get_content url) s) as Hi. fold fetch in Hi.
  unfold getHotelContent, try_catch, bind. fold url. fold fetch.
  destruct fetch as [[[data|e] s1] t1]; unfold outcome_of, trace_of in *; simpl in *.
  - exists data, s1, (t1 ++ []). repeat split.
    + now rewrite app_nil_r.
    + discriminate.
    + intros ->. reflexivity.
    + now intros [= ->].
  - destruct (isAxiosError e); simpl; eexists None, s1, _;
      (repeat split;
       [ now rewrite !invocations_app, Hi | discriminate | discriminate ]).
Qed.

(* ===================================================================== *)
(** ** The default codes *)
(* ===================================================================== *)

Lemma count_occ_filter (f : string -> bool) l x :
  f x = true ->
  count_occ string_dec (filter f l) x = count_occ string_dec l x.
Proof.
  intros Hx. induction l as [|y l IH]; simpl; [reflexivity|].
  destruct (string_dec y x) as [->|Hne].
  - rewrite Hx. simpl. destruct (string_dec x x); [now rewrite IH | contradiction].
  - destruct (f y); simpl; [|assumption].
    destruct (string_dec y x); [contradiction | assumption].
Qed.

Lemma NoDup_registry r : NoDup (Object_keys (SUPPLIER_CODES r)).
Proof.
  destruct r; simpl; repeat (constructor; [not_listed|]); constructor.
Qed.

(** C10, as the code has it.  With [AMADEUS_RATE_CODES] set, the default
    codes are its comma-separated entries, trimmed, without the empty ones,
    in their order and as often as they are listed; otherwise they are the
    codes of the registry in the order of the table, none of them twice. *)
Theorem getDefaultSupplierCodes_configured (r : Revision) (env : Env.t)
        (c : AmadeusClient.t) :
  constructor r env = Return c ->
  let entries := map JS.trim (JS.split_comma (Env.AMADEUS_RATE_CODES env ?? "")) in
  (JS.truthy (Env.AMADEUS_RATE_CODES env) = true ->
     getDefaultSupplierCodes c = filter JS.truthy_string entries
     /\ (forall code, code <> "" ->
           count_occ string_dec (getDefaultSupplierCodes c) code
           = count_occ string_dec entries code))
  /\ (JS.truthy (Env.AMADEUS_RATE_CODES env) = false ->
      getDefaultSupplierCodes c = Object_keys (SUPPLIER_CODES r)
      /\ NoDup (getDefaultSupplierCodes c)).
Proof.
  intros Hc entries.
  assert (E : getDefaultSupplierCodes c
              = configured_codes r (Env.AMADEUS_RATE_CODES env)).
  { unfold constructor in Hc.
    destruct (negb _ || negb _); [discriminate|]. now injection Hc as <-. }
  unfold entries, configured_codes in *.
  destruct (Env.AMADEUS_RATE_CODES env) as [v|]; simpl in *.
  - destruct (JS.truthy_string v); split; intros Hv; try discriminate.
    + split; [exact E|]. intros code Hne. rewrite E. apply count_occ_filter.
      now destruct code.
    + rewrite E. split; [reflexivity | apply NoDup_registry].
  - split; intros Hv; [discriminate|].
    rewrite E. split; [reflexivity | apply NoDup_registry].
Qed.

(** C10 as stated fails: a code listed twice is a default code twice. *)
Lemma getDefaultSupplierCodes_not_deduplicated :
  exists c,
    constructor Enterprise
      (Env.mk None (Some "id") (Some "secret") None (Some "APS, PP6,APS")) = Return c
    /\ getDefaultSupplierCodes c = ["APS"; "PP6"; "APS"]
    /\ getDefaultSupplierCodes c <> first_occurrences ["APS"; "PP6"; "APS"]
    /\ ~ NoDup (getDefaultSupplierCodes c).
Proof.
  eexists. split; [reflexivity|]. split; [reflexivity|]. split; [discriminate|].
  simpl. intros H. inversion H as [|x l Hin _]. apply Hin. simpl. tauto.
Qed.

(* ===================================================================== *)
(** ** The tool handler *)
(* ===================================================================== *)

(** With an [arguments] object that lacks a required property, each tool
    throws its [InvalidParams] error at once: the state is untouched and
    nothing has been invoked, posted or logged. *)
Lemma call_tool_missing_field {W : Type} {world : World W} (r : Revision)
      (params : Args.t) (s : State W) :
  (Args.cityCode params = None ->
   call_tool r "search_hotels_by_city" (Some params) s
   = (Throw (validation_error "cityCode is required"), s, []))
  /\ (Args.latitude params = None \/ Args.longitude params = None ->
      call_tool r "search_hotels_by_geocode" (Some params) s
      = (Throw (validation_error "latitude and longitude are required"), s, []))
  /\ (Args.hotelIds params = None \/ Args.checkInDate params = None
      \/ Args.checkOutDate params = None ->
      call_tool r "get_hotel_offers" (Some params) s
      = (Throw (validation_error
                  "hotelIds, checkInDate, and checkOutDate are required"), s, []))
  /\ (Args.offerId params = None ->
      call_tool r "get_hotel_offer_details" (Some params) s
      = (Throw (validation_error "offerId is required"), s, []))
  /\ (Args.hotelId params = None ->
      call_tool r "get_hotel_content" (Some params) s
      = (Throw (validation_error "hotelId is required"), s, [])).
Proof.
  unfold call_tool, try_catch, dispatch, validation_error. simpl.
  split; [|split; [|split; [|split]]].
  - intros ->. reflexivity.
  - intros [-> | ->]; [|destruct (Args.latitude params)]; reflexivity.
  - intros [-> | [-> | ->]]; simpl; [reflexivity | |].
    + now rewrite orb_true_r.
    + now rewrite orb_true_r.
  - intros ->. reflexivity.
  - intros ->. reflexivity.
Qed.

(** C8.  A call that carries no [arguments] at all lacks every required
    field, yet no tool answers it with its validation error: reading the
    first property of [undefined] throws a [TypeError], which the handler
    rethrows as an [InternalError] with the runtime's message.  (Nothing has
    been sent upstream by then.) *)
Theorem call_tool_without_arguments {W : Type} {world : World W} (r : Revision)
        (s : State W) :
  call_tool r "search_hotels_by_city" None s
  = (Throw (McpError InternalError
              "Cannot read properties of undefined (reading 'cityCode')"), s, [])
  /\ call_tool r "search_hotels_by_geocode" None s
     = (Throw (McpError InternalError
                 "Cannot read properties of undefined (reading 'latitude')"), s, [])
  /\ call_tool r "get_hotel_offers" None s
     = (Throw (McpError InternalError
                 "Cannot read properties of undefined (reading 'hotelIds')"), s, [])
  /\ call_tool r "get_hotel_offer_details" None s
     = (Throw (McpError InternalError
                 "Cannot read properties of undefined (reading 'offerId')"), s, [])
  /\ call_tool r "get_hotel_content" None s
     = (Throw (McpError InternalError
                 "Cannot destructure property 'hotelId' of 'args' as it is undefined."),
        s, []).
Proof. repeat split. Qed.

(** C7, as the code has it.  On an empty list of identifiers the client's
    [getHotelOffers] returns the empty result without a single event, and
    the [get_hotel_offers] tool does not get that far: it throws its
    validation error, again without a single event. *)
Theorem empty_hotelIds {W : Type} {world : World W} (r : Revision)
        (params : Args.t) (s : State W) :
  Args.hotelIds params = Some [] ->
  getHotelOffers r params s = (Return [], s, [])
  /\ call_tool r "get_hotel_offers" (Some params) s
     = (Throw (McpError InvalidParams
                 "hotelIds, checkInDate, and checkOutDate are required"), s, []).
Proof.
  intros Hids. split.
  - unfold getHotelOffers. rewrite Hids. destruct s. reflexivity.
  - unfold call_tool, try_catch, dispatch. simpl. rewrite Hids. reflexivity.
Qed.

(** C7 as stated fails: the tool does not return on an empty list. *)
Lemma get_hotel_offers_rejects_empty_list :
  ~ exists result s' t,
      call_tool Enterprise "get_hotel_offers" (Some (Scripted.stay (Some [])))
                (Scripted.idle Enterprise)
      = (Return result, s', t).
Proof.
  intros [result [s' [t H]]]. vm_compute in H. discriminate.
Qed.

(* ===================================================================== *)
(** ** The code on concrete inputs *)
(* ===================================================================== *)

Example trim_ex : JS.trim "  APS	" = "APS" /\ JS.trim " a b " = "a b".
Proof. split; reflexivity. Qed.

Example split_comma_ex :
  JS.split_comma "APS, PP6,,3MF," = ["APS"; " PP6"; ""; "3MF"; ""].
Proof. reflexivity. Qed.

Example new_Set_ex : JS.new_Set ["b"; "a"; "b"; "c"; "a"] = ["b"; "a"; "c"].
Proof. reflexivity. Qed.

Example String_of_ex : String_of 12 = "12" /\ String_of (-3) = "-3".
Proof. split; reflexivity. Qed.

Example batches_of_ex :
  map (@length string) (batches_of (Scripted.ids 45)) = [20; 20; 5].
Proof. reflexivity. Qed.

(** A client without a token: the first pricing call posts the exchange,
    the second one reuses the token; one pacing delay in between. *)
Example two_batches_one_exchange :
  let s := (Scripted.client Earlier None 0,
            Scripted.mk 1000000 [Scripted.token "T1"] [] []) in
  let t := trace_of (getHotelOffers Earlier (Scripted.stay (Some (Scripted.ids 21))) s) in
  length (invocations t) = 2
  /\ length (exchanges t) = 1
  /\ count_occ (list_eq_dec Z.eq_dec)
       (flat_map (fun e => match e with SetTimeout ms => [[ms]] | _ => [] end) t)
       [100%Z] = 1.
Proof. vm_compute. repeat split. Qed.

(** An empty token counts as no token: it is replaced although the expiry
    is far away. *)
Example empty_token_is_replaced :
  outcome_of (getAccessToken
                (Scripted.client Enterprise (Some "") 1600000,
                 Scripted.mk 1000000 [Scripted.token "new"] [] []))
  = Return "new".
Proof. reflexivity. Qed.

(** 45 identifiers make three pricing calls. *)
Lemma getHotelOffers_batches_witness :
  length (invocations (trace_of
            (getHotelOffers Enterprise (Scripted.stay (Some (Scripted.ids 45)))
                            (Scripted.idle Enterprise)))) = 3.
Proof.
  destruct (getHotelOffers_batches Enterprise
              (Scripted.stay (Some (Scripted.ids 45)))
              (Scripted.idle Enterprise) eq_refl) as (_ & H & _).
  exact H.
Defined.

(** The caller gives an unknown code and a known one; the cap of six leaves
    room for four of the six defaults, and the caller's codes are kept. *)
Lemma merged_rateCodes_caller_first_witness :
  merged_rateCodes Enterprise (Some ["XYZ"; "APS"]) (Object_keys (SUPPLIER_CODES Enterprise))
  = ["XYZ"; "APS"; "PP6"; "3MF"; "1HZ"; "W9E"]
  /\ In "XYZ" (merged_rateCodes Enterprise (Some ["XYZ"; "APS"])
                 (Object_keys (SUPPLIER_CODES Enterprise))).
Proof.
  split; [reflexivity|].
  destruct (merged_rateCodes_caller_first Enterprise (Some ["XYZ"; "APS"])
              (Object_keys (SUPPLIER_CODES Enterprise))) as (_ & _ & _ & _ & _ & _ & H).
  apply (H "PP6").
  - vm_compute. tauto.
  - not_listed.
  - simpl. tauto.
Defined.

Lemma getHotelOffers_only_available_witness :
  exists results s' t,
    getHotelOffers Enterprise (Scripted.stay (Some (Scripted.ids 45)))
                   (Scripted.logged_in Enterprise Scripted.second_of_three_fails)
    = (Return results, s', t)
    /\ Forall (fun h => HotelOffer.available h = true
                        /\ exists o l, HotelOffer.offers h = Some (o :: l)) results.
Proof.
  exact (getHotelOffers_only_available Enterprise
           (Scripted.stay (Some (Scripted.ids 45)))
           (Scripted.logged_in Enterprise Scripted.second_of_three_fails) eq_refl).
Defined.

(** Batch 2 of 3 fails: the result is what batches 1 and 3 contribute, in
    that order (of the four hotels of batch 1, only [H0] has inventory). *)
Lemma getHotelOffers_partial_failure_witness :
  option_map (map (fun h => Hotel.hotelId (HotelOffer.hotel h)))
    match outcome_of
            (getHotelOffers Enterprise (Scripted.stay (Some (Scripted.ids 45)))
               (Scripted.logged_in Enterprise Scripted.second_of_three_fails))
    with Return results => Some results | Throw _ => None end
  = Some ["H0"; "H40"].
Proof.
  destruct (getHotelOffers_partial_failure Enterprise
              (Scripted.stay (Some (Scripted.ids 45)))
              (Scripted.logged_in Enterprise Scripted.second_of_three_fails) eq_refl)
    as (_ & (s' & t & E) & _).
  rewrite E. reflexivity.
Defined.

(** 40 s left: reused.  20 s left: exchanged. *)
Lemma getAccessToken_margin_witness :
  getAccessToken (Scripted.expiring_in 40000)
  = (Return "tok", Scripted.expiring_in 40000, [])
  /\ exchanged (Scripted.expiring_in 20000).
Proof.
  split.
  - destruct (getAccessToken_margin (Scripted.expiring_in 40000)) as (_ & _ & H & _).
    apply (H "tok"); [reflexivity | discriminate | reflexivity].
  - destruct (getAccessToken_margin (Scripted.expiring_in 20000)) as (_ & _ & _ & H).
    apply H. reflexivity.
Defined.

(** The content fetch fails upstream: [null]. *)
Lemma getHotelContent_never_throws_witness :
  outcome_of (getHotelContent "H1"
                (Scripted.logged_in Enterprise
                   (Scripted.mk 1000000 [] [] [Throw Scripted.server_error])))
  = Return None.
Proof.
  destruct (getHotelContent_never_throws "H1"
              (Scripted.logged_in Enterprise
                 (Scripted.mk 1000000 [] [] [Throw Scripted.server_error])))
    as (result & s' & t & E & _ & Hfail & _).
  rewrite E. unfold outcome_of. simpl. f_equal.
  apply (Hfail Scripted.server_error). reflexivity.
Defined.

Lemma getDefaultSupplierCodes_configured_witness :
  getDefaultSupplierCodes
    (AmadeusClient.mk "id" "secret" None "https://travel.api.amadeus.com"
       "https://travel.api.amadeus.com/v1/security/oauth2/token"
       ["APS"; "PP6"; "APS"] None 0)
  = filter JS.truthy_string (map JS.trim (JS.split_comma "APS, PP6,APS")).
Proof.
  destruct (getDefaultSupplierCodes_configured Enterprise
              (Env.mk None (Some "id") (Some "secret") None (Some "APS, PP6,APS"))
              eq_refl) as (H & _).
  apply H. reflexivity.
Defined.

Lemma empty_hotelIds_witness :
  getHotelOffers Enterprise (Scripted.stay (Some [])) (Scripted.idle Enterprise)
  = (Return [], Scripted.idle Enterprise, [])
  /\ call_tool Enterprise "get_hotel_offers" (Some (Scripted.stay (Some [])))
       (Scripted.idle Enterprise)
     = (Throw (McpError InvalidParams
                 "hotelIds, checkInDate, and checkOutDate are required"),
        Scripted.idle Enterprise, []).
Proof.
  exact (empty_hotelIds Enterprise (Scripted.stay (Some [])) (Scripted.idle Enterprise)
           eq_refl).
Defined.

(* ===================================================================== *)
(** * Further properties *)
(* ===================================================================== *)

(* ===================================================================== *)
(** ** The exact course of the pricing loop *)
(* ===================================================================== *)

Lemma timeouts_app t1 t2 : timeouts (t1 ++ t2) = timeouts t1 ++ timeouts t2.
Proof. unfold timeouts. now rewrite flat_map_app. Qed.

Lemma requests_app t1 t2 : requests (t1 ++ t2) = requests t1 ++ requests t2.
Proof. unfold requests. now rewrite flat_map_app. Qed.

Lemma console_app t1 t2 : console (t1 ++ t2) = console t1 ++ console t2.
Proof. unfold console. now rewrite flat_map_app. Qed.

Lemma exchanges_app t1 t2 : exchanges (t1 ++ t2) = exchanges t1 ++ exchanges t2.
Proof. unfold exchanges. now rewrite flat_map_app. Qed.

Section Exact.

Context {W : Type} {world : World W}.
Variable r : Revision.

Lemma getAccessToken_trace (s : State W) :
  trace_of (getAccessToken s)
  = if still_valid (fst s) (Date_now (snd s)) then []
    else [TokenPost (AmadeusClient.authUrl (fst s)) (token_form (fst s))].
Proof.
  rewrite getAccessToken_run. cbv zeta.
  destruct (still_valid _ _); [reflexivity|].
  destruct (post_token _ _ _) as [[response|e] w]; reflexivity.
Qed.

(** The trace of [this.http.get]: the invocation, the exchange if there is
    one, and the request if a token was obtained. *)
Lemma http_get_trace (A : Type) url q (call : string -> W -> Outcome A * W) (s : State W) :
  trace_of (http_get url q call s)
  = HttpGet url q :: trace_of (getAccessToken s)
    ++ match outcome_of (getAccessToken s) with
       | Return token => [Sent url q (String.append "Bearer " token)]
       | Throw _ => []
       end.
Proof.
  rewrite http_get_run.
  destruct (getAccessToken s) as [[[token|e] s1] t1]; unfold trace_of, outcome_of; simpl.
  - now destruct (call _ (snd s1)).
  - now rewrite app_nil_r.
Qed.

Lemma one_batch_exact params rateCodes batch batchIdx n (s : State W) :
  let q := requestParams r params rateCodes batch in
  let x := http_get offers_url q (get_offers q) s in
  one_batch r params rateCodes batch batchIdx n s
  = (Return (contribution r (outcome_of x)), paced batchIdx n (state_of x),
     trace_of x ++ batch_log batchIdx (outcome_of x) ++ batch_pause batchIdx n).
Proof.
  intros q x. unfold one_batch, bind, try_catch. fold q. fold x.
  destruct x as [[[data|e] s1] t1];
    unfold trace_of, outcome_of, state_of, paced, batch_pause, batch_log; simpl.
  - rewrite accepted_contribution.
    destruct (batchIdx <? n - 1)%nat; simpl; repeat rewrite app_nil_r; reflexivity.
  - destruct (isAxiosError e); simpl;
      destruct (batchIdx <? n - 1)%nat; simpl; repeat rewrite app_nil_r;
      try rewrite <- app_assoc; reflexivity.
Qed.

Lemma batch_loop_exact params rateCodes n :
  forall remaining batchIdx allResults (s : State W),
    batch_loop r params rateCodes remaining batchIdx n allResults s
    = (Return (allResults
               ++ flat_map (contribution r)
                    (attempts r params rateCodes remaining batchIdx n s)),
       loop_state r params rateCodes remaining batchIdx n s,
       loop_trace r params rateCodes remaining batchIdx n s).
Proof.
  induction remaining as [|batch rest IH]; intros batchIdx allResults s.
  - simpl. now rewrite app_nil_r.
  - cbn [batch_loop attempts flat_map loop_state loop_trace]. unfold bind at 1.
    rewrite one_batch_exact. cbv zeta. rewrite IH.
    now rewrite <- !app_assoc.
Qed.

Lemma getHotelOffers_exact params allIds (s : State W) :
  Args.hotelIds params = Some allIds ->
  let rateCodes := merged_rateCodes r (Args.rateCodes params)
                     (AmadeusClient.defaultSupplierCodes (fst s)) in
  let batches := batches_of allIds in
  getHotelOffers r params s
  = (Return (flat_map (contribution r)
               (attempts r params rateCodes batches 0 (length batches) s)),
     loop_state r params rateCodes batches 0 (length batches) s,
     loop_trace r params rateCodes batches 0 (length batches) s).
Proof.
  intros Hids rateCodes batches.
  unfold getHotelOffers. rewrite Hids. unfold bind, this. cbn [fst snd].
  fold batches. fold rateCodes. rewrite batch_loop_exact. simpl.
  reflexivity.
Qed.

End Exact.

(* ===================================================================== *)
(** ** More on batching *)
(* ===================================================================== *)

Lemma ceil_div_gt (L k : nat) : k + 1 < ceil_div L 20 -> 20 * (k + 1) < L.
Proof.
  unfold ceil_div. change (20 - 1) with 19. intros H.
  pose proof (Nat.Div0.mul_div_le (L + 19) 20). nia.
Qed.

Lemma ceil_div_last (L : nat) : 0 < L -> 20 * (ceil_div L 20 - 1) < L <= 20 * ceil_div L 20.
Proof.
  unfold ceil_div. change (20 - 1) with 19. intros H.
  pose proof (Nat.Div0.mul_div_le (L + 19) 20).
  pose proof (Nat.mul_succ_div_gt (L + 19) 20). lia.
Qed.

(** X1.  All batches are full but the last: among the [ceil(L / 20)]
    batches of [L] identifiers, every one before the last has exactly 20,
    and the last has the [L - 20 (n - 1)] that remain. *)
Theorem batches_full_but_last (allIds : list string) (k : nat) (batch : list string) :
  nth_error (batches_of allIds) k = Some batch ->
  let n := ceil_div (length allIds) 20 in
  k < n
  /\ (k + 1 < n -> length batch = 20)
  /\ (k + 1 = n -> length batch = length allIds - 20 * (n - 1)).
Proof.
  intros Hk n.
  assert (Hlen : length (batches_of allIds) = n).
  { unfold batches_of. rewrite batches_from_length. now rewrite Nat.sub_0_r. }
  assert (Hlt : k < n).
  { rewrite <- Hlen. apply nth_error_Some. congruence. }
  assert (Hb : batch = JS.slice (20 * k) (20 * k + 20) allIds).
  { unfold batches_of in *. rewrite (batches_from_nth allIds) in Hk.
    - now injection Hk as <-.
    - unfold batches_of in Hlen. now rewrite Hlen. }
  subst batch. rewrite slice_length. split; [exact Hlt|]. split; intros Hn.
  - apply ceil_div_gt in Hn. lia.
  - assert (0 < length allIds).
    { destruct allIds; [|simpl; lia]. unfold n in Hlt. simpl in Hlt. lia. }
    pose proof (ceil_div_last H). fold n in H0. replace k with (n - 1) by lia. lia.
Qed.

Lemma split_comma_cons s rest :
  has_comma s = false ->
  JS.split_comma (String.append s (String ","%char rest)) = s :: JS.split_comma rest.
Proof.
  induction s as [|c s IH]; simpl; intros H; [reflexivity|].
  apply orb_false_iff in H. destruct H as [Hc Hs].
  rewrite Hc, (IH Hs). reflexivity.
Qed.

Lemma split_comma_single s : has_comma s = false -> JS.split_comma s = [s].
Proof.
  induction s as [|c s IH]; simpl; intros H; [reflexivity|].
  apply orb_false_iff in H. destruct H as [Hc Hs].
  now rewrite Hc, (IH Hs).
Qed.

(** Splitting undoes joining, for a non-empty array of comma-free strings. *)
Lemma split_join_comma (a : list string) :
  a <> [] -> Forall (fun s => has_comma s = false) a ->
  JS.split_comma (JS.join_comma a) = a.
Proof.
  unfold JS.join_comma. induction a as [|x a IH]; intros Hne Hall; [congruence|].
  inversion Hall as [|? ? Hx Ha]; subst.
  destruct a as [|y a].
  - simpl. now apply split_comma_single.
  - change (String.concat "," (x :: y :: a))
      with (String.append x (String ","%char (String.concat "," (y :: a)))).
    rewrite split_comma_cons by assumption. f_equal. apply IH; [discriminate | assumption].
Qed.

(** X2.  When no identifier contains a comma, the [hotelIds] parameter of
    the [k]-th pricing call splits back into exactly the [k]-th batch: the
    upstream sees every identifier once, in order, at most 20 per call. *)
Theorem hotelIds_round_trip {W : Type} {world : World W} (r : Revision)
        (params : Args.t) (allIds : list string) (s : State W) :
  Args.hotelIds params = Some allIds ->
  Forall (fun id => has_comma id = false) allIds ->
  map (fun call => option_map JS.split_comma (assoc "hotelIds" (snd call)))
      (invocations (trace_of (getHotelOffers r params s)))
  = map Some (batches_of allIds).
Proof.
  intros Hids Hcomma.
  destruct (getHotelOffers_run r params s Hids) as [s' [t [E Hcalls]]].
  pose proof (batches_from_sizes allIds 0) as Hsize.
  pose proof (batches_from_concat allIds 0) as Hcat. simpl in Hcat.
  fold (batches_of allIds) in Hsize, Hcat.
  rewrite E. unfold trace_of. cbn [snd]. rewrite Hcalls, map_map. apply map_ext_in. intros batch Hb. simpl. f_equal.
  apply split_join_comma.
  - rewrite Forall_forall in Hsize. specialize (Hsize _ Hb).
    destruct batch; [simpl in Hsize; lia | discriminate].
  - apply Forall_forall. intros id Hid. rewrite Forall_forall in Hcomma.
    apply Hcomma. rewrite <- Hcat. apply in_concat. now exists batch.
Qed.

(* ===================================================================== *)
(** ** Pacing, logging and what reaches the upstream *)
(* ===================================================================== *)

Lemma console_flat_map (A : Type) (f : A -> list Event) l :
  console (flat_map f l) = flat_map (fun x => console (f x)) l.
Proof.
  induction l as [|x l IH]; simpl; [reflexivity|]. now rewrite console_app, IH.
Qed.

Section Loop.

Context {W : Type} {world : World W}.
Variable r : Revision.

Lemma http_get_timeouts (A : Type) url q (call : string -> W -> Outcome A * W) (s : State W) :
  timeouts (trace_of (http_get url q call s)) = []
  /\ console (trace_of (http_get url q call s)) = [].
Proof.
  rewrite http_get_trace, getAccessToken_trace.
  destruct (still_valid _ _); destruct (outcome_of _); split; reflexivity.
Qed.

Lemma loop_trace_timeouts params rateCodes n : forall remaining batchIdx (s : State W),
  batchIdx + length remaining = n ->
  timeouts (loop_trace r params rateCodes remaining batchIdx n s)
  = repeat 100%Z (length remaining - 1).
Proof.
  induction remaining as [|batch rest IH]; intros batchIdx s Hn; [reflexivity|].
  cbn [loop_trace length]. rewrite !timeouts_app.
  rewrite (proj1 (http_get_timeouts _ _ _ _)), IH by (simpl in Hn; lia).
  unfold batch_pause, batch_log.
  assert (Hlog : forall A (o : Outcome A),
             timeouts (batch_log batchIdx o) = []).
  { intros A [a|e]; simpl; [reflexivity|]. now destruct (isAxiosError e). }
  unfold batch_log in Hlog. rewrite Hlog. simpl in Hn. simpl.
  destruct rest as [|b rest'].
  - replace (batchIdx <? n - 1)%nat with false by (symmetry; apply Nat.ltb_ge; simpl in Hn; lia).
    reflexivity.
  - replace (batchIdx <? n - 1)%nat with true by (symmetry; apply Nat.ltb_lt; simpl in Hn; lia).
    simpl. now rewrite Nat.sub_0_r.
Qed.

Lemma loop_trace_console params rateCodes n : forall remaining batchIdx (s : State W),
  console (loop_trace r params rateCodes remaining batchIdx n s)
  = console (flat_map (fun '(k, o) => batch_log k o)
               (combine (seq batchIdx (length remaining))
                        (attempts r params rateCodes remaining batchIdx n s))).
Proof.
  induction remaining as [|batch rest IH]; intros batchIdx s; [reflexivity|].
  cbn [loop_trace attempts length seq combine flat_map]. rewrite !console_app.
  rewrite (proj2 (http_get_timeouts _ _ _ _)), IH.
  unfold batch_pause. destruct (batchIdx <? n - 1)%nat; reflexivity.
Qed.

End Loop.

(** X3.  Between the pricing calls of one query there are exactly
    [ceil(L / 20) - 1] delays of 100 ms: one after every batch but the
    last, none for a query of at most 20 identifiers. *)
Theorem getHotelOffers_pacing {W : Type} {world : World W} (r : Revision)
        (params : Args.t) (allIds : list string) (s : State W) :
  Args.hotelIds params = Some allIds ->
  timeouts (trace_of (getHotelOffers r params s))
  = repeat 100%Z (ceil_div (length allIds) 20 - 1)
  /\ (length allIds <= 20 -> timeouts (trace_of (getHotelOffers r params s)) = []).
Proof.
  intros Hids.
  assert (Hlen : length (batches_of allIds) = ceil_div (length allIds) 20).
  { unfold batches_of. rewrite batches_from_length. now rewrite Nat.sub_0_r. }
  assert (E : timeouts (trace_of (getHotelOffers r params s))
              = repeat 100%Z (ceil_div (length allIds) 20 - 1)).
  { rewrite (getHotelOffers_exact r params s Hids). unfold trace_of. cbn [snd].
    rewrite loop_trace_timeouts by reflexivity. now rewrite Hlen. }
  split; [exact E|]. intros Hsmall. rewrite E.
  replace (ceil_div (length allIds) 20 - 1) with 0; [reflexivity|].
  unfold ceil_div. change (20 - 1) with 19.
  pose proof (Nat.Div0.div_lt_upper_bound (length allIds + 19) 20 2). lia.
Qed.

(** X4.  A failed batch is logged exactly when its error is an axios
    error, under its 1-based number; any other error is swallowed without a
    trace, and a run without failures logs nothing. *)
Theorem getHotelOffers_logging {W : Type} {world : World W} (r : Revision)
        (params : Args.t) (allIds : list string) (s : State W) :
  Args.hotelIds params = Some allIds ->
  let rateCodes := merged_rateCodes r (Args.rateCodes params)
                     (AmadeusClient.defaultSupplierCodes (fst s)) in
  let batches := batches_of allIds in
  let settled := attempts r params rateCodes batches 0 (length batches) s in
  console (trace_of (getHotelOffers r params s))
  = flat_map (fun '(k, o) =>
                match o with
                | Throw err =>
                    if isAxiosError err
                    then [String.append "[amadeus] Batch "
                            (String.append (String_of (Z.of_nat (k + 1))) " error:")]
                    else []
                | Return _ => []
                end)
             (combine (seq 0 (length batches)) settled)
  /\ (Forall (fun o => match o with
                       | Throw err => isAxiosError err = false
                       | Return _ => True
                       end) settled ->
      console (trace_of (getHotelOffers r params s)) = []).
Proof.
  intros Hids rateCodes batches settled.
  assert (E : console (trace_of (getHotelOffers r params s))
    = flat_map (fun '(k, o) =>
                match o with
                | Throw err =>
                    if isAxiosError err
                    then [String.append "[amadeus] Batch "
                            (String.append (String_of (Z.of_nat (k + 1))) " error:")]
                    else []
                | Return _ => []
                end)
             (combine (seq 0 (length batches)) settled)).
  { rewrite (getHotelOffers_exact r params s Hids). unfold trace_of. cbn [snd].
    rewrite loop_trace_console. fold rateCodes batches settled.
    rewrite console_flat_map. apply flat_map_ext. intros [k [a|e]]; simpl; [reflexivity|].
    now destruct (isAxiosError e). }
  split; [exact E|]. intros Hall. rewrite E.
  assert (G : forall (l : list (nat * Outcome (option (list HotelOffer.t)))),
             Forall (fun o => match o with
                       | Throw err => isAxiosError err = false
                       | Return _ => True
                       end) (map snd l) ->
             flat_map (fun '(k, o) =>
                match o with
                | Throw err =>
                    if isAxiosError err
                    then [String.append "[amadeus] Batch "
                            (String.append (String_of (Z.of_nat (k + 1))) " error:")]
                    else []
                | Return _ => []
                end) l = []).
  { induction l as [|[k o] l IH]; intros Hl; [reflexivity|].
    inversion Hl as [|? ? Ho Hl']; subst. cbn [flat_map]. rewrite (IH Hl').
    destruct o as [a|e]; [reflexivity|]. simpl in Ho. now rewrite Ho. }
  apply G. clear E G. clearbody settled. revert Hall.
  generalize (seq 0 (length batches)).
  induction settled as [|o l IH]; intros ks Hall; destruct ks as [|k ks];
    cbn [combine map snd]; try constructor.
  - now inversion Hall.
  - apply IH. now inversion Hall.
Qed.

(* ===================================================================== *)
(** ** The interceptor and the token cache *)
(* ===================================================================== *)

Section Token.

Context {W : Type} {world : World W}.

Lemma still_valid_token (c : AmadeusClient.t) now :
  still_valid c now = true ->
  exists tok, AmadeusClient.accessToken c = Some tok /\ tok <> ""
              /\ (now < AmadeusClient.tokenExpiresAt c - 30000)%Z.
Proof.
  unfold still_valid. intros H. apply andb_true_iff in H. destruct H as [Ht Hlt].
  destruct (AmadeusClient.accessToken c) as [tok|]; [|discriminate].
  exists tok. repeat split; [|now apply Z.ltb_lt]. now destruct tok.
Qed.

(** The token that [getAccessToken] returns is the one the client holds
    afterwards. *)
Lemma getAccessToken_holds (s : State W) tok :
  outcome_of (getAccessToken s) = Return tok ->
  AmadeusClient.accessToken (fst (state_of (getAccessToken s))) = Some tok.
Proof.
  rewrite getAccessToken_run. cbv zeta.
  destruct (still_valid _ _) eqn:Hv.
  - apply still_valid_token in Hv. destruct Hv as [tok' [Ht _]].
    unfold outcome_of, state_of. simpl. rewrite Ht. simpl. now intros [= ->].
  - destruct (post_token _ _ _) as [[response|e] w]; unfold outcome_of, state_of; simpl;
      [now intros [= ->] | discriminate].
Qed.

(** X5.  A request leaves the interceptor only with [Authorization: Bearer]
    followed by the token that the client holds afterwards, and at most
    once per [this.http.get]; when the token cannot be obtained, nothing is
    sent and the call fails with the error of the exchange. *)
Theorem interceptor_bearer (A : Type) url q (call : string -> W -> Outcome A * W)
        (s : State W) :
  let x := http_get url q call s in
  (forall u q' a, In (u, q', a) (requests (trace_of x)) ->
     u = url /\ q' = q
     /\ exists tok, a = String.append "Bearer " tok
                    /\ AmadeusClient.accessToken (fst (state_of x)) = Some tok)
  /\ length (requests (trace_of x)) <= 1
  /\ (forall e, outcome_of (getAccessToken s) = Throw e ->
        requests (trace_of x) = [] /\ outcome_of x = Throw e).
Proof.
  intros x. unfold x. clear x. rewrite http_get_run.
  pose proof (getAccessToken_holds s) as Hh.
  pose proof (getAccessToken_trace s) as Ht.
  destruct (getAccessToken s) as [[[token|e] s1] t1];
    unfold trace_of, outcome_of, state_of in *; cbn [fst snd] in *.
  - destruct (call _ (snd s1)) as [o w]. cbn [fst snd].
    assert (R : requests (HttpGet url q :: t1 ++ [Sent url q (String.append "Bearer " token)])
                = [(url, q, String.append "Bearer " token)]).
    { change (HttpGet url q :: t1 ++ [Sent url q (String.append "Bearer " token)])
        with ([HttpGet url q] ++ t1 ++ [Sent url q (String.append "Bearer " token)]).
      rewrite !requests_app, Ht. now destruct (still_valid _ _). }
    rewrite R. split; [|split].
    + intros u q' a Hin. simpl in Hin. destruct Hin as [[= <- <- <-]|[]].
      repeat split. exists token. split; [reflexivity | now apply Hh].
    + simpl. lia.
    + intros e He. discriminate He.
  - assert (R : requests (HttpGet url q :: t1) = []).
    { rewrite Ht. now destruct (still_valid _ _). }
    rewrite R. split; [|split].
    + intros u q' a [].
    + simpl. lia.
    + intros e' [= ->]. split; reflexivity.
Qed.

(** X6.  With a cached token more than 30 s before its expiry, an API call
    is one invocation and one request carrying that token, without any
    credential exchange; the client is left as it was and the call settles
    as the upstream answers. *)
Theorem http_get_with_valid_token (A : Type) url q (call : string -> W -> Outcome A * W)
        (s : State W) (tok : string) :
  AmadeusClient.accessToken (fst s) = Some tok -> tok <> "" ->
  (Date_now (snd s) < AmadeusClient.tokenExpiresAt (fst s) - 30000)%Z ->
  let x := http_get url q call s in
  trace_of x = [HttpGet url q; Sent url q (String.append "Bearer " tok)]
  /\ exchanges (trace_of x) = []
  /\ fst (state_of x) = fst s
  /\ outcome_of x = fst (call (String.append "Bearer " tok) (snd s)).
Proof.
  intros Ht Hne Hlt x. unfold x. rewrite http_get_run.
  rewrite (getAccessToken_cached s Ht); cycle 1.
  { unfold still_valid. rewrite Ht. destruct tok; [congruence|]. simpl.
    now apply Z.ltb_lt. }
  cbv zeta.
  destruct (call _ (snd s)) as [o w]. repeat split.
Qed.

(** X7.  After a successful exchange the new token is reused: as long as
    the clock stays more than 30 s before [now + expires_in * 1000], where
    [now] was read before the exchange, the next [getAccessToken] returns it
    without any network call. *)
Theorem token_reused_after_exchange (s : State W)
        (response : AmadeusTokenResponse.t) (w : W) :
  still_valid (fst s) (Date_now (snd s)) = false ->
  post_token (AmadeusClient.authUrl (fst s)) (token_form (fst s)) (snd s)
  = (Return response, w) ->
  AmadeusTokenResponse.access_token response <> "" ->
  (Date_now w < Date_now (snd s) + AmadeusTokenResponse.expires_in response * 1000 - 30000)%Z ->
  let s1 := state_of (getAccessToken s) in
  outcome_of (getAccessToken s) = Return (AmadeusTokenResponse.access_token response)
  /\ getAccessToken s1 = (Return (AmadeusTokenResponse.access_token response), s1, []).
Proof.
  intros Hv Hpost Hne Hlt s1.
  assert (E := getAccessToken_run s). cbv zeta in E. rewrite Hv, Hpost in E.
  unfold s1. rewrite E. unfold outcome_of, state_of. cbn [fst snd]. split; [reflexivity|].
  apply getAccessToken_cached; [reflexivity|].
  unfold still_valid. cbn [fst snd AmadeusClient.set_token AmadeusClient.accessToken
                            AmadeusClient.tokenExpiresAt].
  destruct (AmadeusTokenResponse.access_token response); [congruence|]. simpl.
  now apply Z.ltb_lt.
Qed.

(** X8.  A token that is advertised to live 30 s or less is never reused:
    unless the clock runs backwards, the call after the exchange performs
    an exchange again. *)
Theorem short_lived_token_never_reused (s : State W)
        (response : AmadeusTokenResponse.t) (w : W) :
  still_valid (fst s) (Date_now (snd s)) = false ->
  post_token (AmadeusClient.authUrl (fst s)) (token_form (fst s)) (snd s)
  = (Return response, w) ->
  (AmadeusTokenResponse.expires_in response <= 30)%Z ->
  (Date_now (snd s) <= Date_now w)%Z ->
  exchanged (state_of (getAccessToken s)).
Proof.
  intros Hv Hpost Hshort Hclock.
  assert (E := getAccessToken_run s). cbv zeta in E. rewrite Hv, Hpost in E.
  rewrite E. unfold state_of. cbn [fst snd].
  apply getAccessToken_exchanged. unfold still_valid.
  cbn [fst snd AmadeusClient.set_token AmadeusClient.tokenExpiresAt].
  apply andb_false_iff. right. apply Z.ltb_ge. lia.
Qed.

End Token.

(* ===================================================================== *)
(** ** More on enrichment and on the result *)
(* ===================================================================== *)

Lemma enrichOffer_id r l : map Offer.id (map (enrichOffer r) l) = map Offer.id l.
Proof. rewrite map_map. now apply map_ext. Qed.

(** X9.  Enriching twice is enriching once, and the enrichment does not
    depend on what the upstream put in [supplierName] and
    [isNegotiatedRate]: both are overwritten from the rate code. *)
Theorem enrichment_idempotent (r : Revision) :
  (forall offer, enrichOffer r (enrichOffer r offer) = enrichOffer r offer)
  /\ (forall offer supplierName isNegotiatedRate,
        enrichOffer r (with_derived offer supplierName isNegotiatedRate)
        = enrichOffer r offer)
  /\ (forall hotel, enrichHotel r (enrichHotel r hotel) = enrichHotel r hotel).
Proof.
  split; [|split].
  - intros offer. reflexivity.
  - intros offer supplierName isNegotiatedRate. reflexivity.
  - intros hotel. unfold enrichHotel. cbn [HotelOffer.type HotelOffer.hotel
      HotelOffer.available HotelOffer.offers HotelOffer.self]. f_equal.
    destruct (HotelOffer.offers hotel) as [l|]; [|reflexivity]. simpl. f_equal.
    rewrite map_map. now apply map_ext.
Qed.

(** X10.  Nothing in the result is made up: every hotel entry returned by
    [getHotelOffers] is the enrichment of an entry of a successful pricing
    response, with the same hotel, the same availability and the same
    offers (by [id], in order). *)
Theorem getHotelOffers_provenance {W : Type} {world : World W} (r : Revision)
        (params : Args.t) (allIds : list string) (s : State W)
        (results : list HotelOffer.t) :
  Args.hotelIds params = Some allIds ->
  outcome_of (getHotelOffers r params s) = Return results ->
  let rateCodes := merged_rateCodes r (Args.rateCodes params)
                     (AmadeusClient.defaultSupplierCodes (fst s)) in
  let batches := batches_of allIds in
  let settled := attempts r params rateCodes batches 0 (length batches) s in
  forall h, In h results ->
    exists data raw,
      In (Return (Some data)) settled /\ In raw data
      /\ h = enrichHotel r raw
      /\ HotelOffer.hotel h = HotelOffer.hotel raw
      /\ HotelOffer.available h = HotelOffer.available raw
      /\ option_map (map Offer.id) (HotelOffer.offers h)
         = option_map (map Offer.id) (HotelOffer.offers raw).
Proof.
  intros Hids Hres rateCodes batches settled h Hh.
  rewrite (getHotelOffers_exact r params s Hids) in Hres.
  unfold outcome_of in Hres. cbn [fst] in Hres. injection Hres as <-.
  fold rateCodes batches settled in Hh.
  apply in_flat_map in Hh. destruct Hh as [o [Ho Hh]].
  destruct o as [[data|]|e]; simpl in Hh; try contradiction.
  apply filter_In in Hh. destruct Hh as [Hh _].
  apply in_map_iff in Hh. destruct Hh as [raw [<- Hraw]].
  exists data, raw. repeat split; try assumption.
  unfold enrichHotel. cbn [HotelOffer.offers].
  destruct (HotelOffer.offers raw) as [l|]; [|reflexivity]. simpl.
  now rewrite enrichOffer_id.
Qed.

(* ===================================================================== *)
(** ** The configuration of the client *)
(* ===================================================================== *)

Lemma same_config_refl c : same_config c c.
Proof. repeat split. Qed.

Lemma same_config_trans c1 c2 c3 :
  same_config c1 c2 -> same_config c2 c3 -> same_config c1 c3.
Proof.
  unfold same_config. intros (a1 & a2 & a3 & a4 & a5 & a6) (b1 & b2 & b3 & b4 & b5 & b6).
  repeat split; congruence.
Qed.

Lemma same_config_set_token c tok exp : same_config c (AmadeusClient.set_token c tok exp).
Proof. repeat split. Qed.

Section Config.

Context {W : Type} {world : World W}.
Variable r : Revision.

Lemma keeps_config_ret (A : Type) (a : A) : keeps_config (ret a : M W A).
Proof. intros s. apply same_config_refl. Qed.

Lemma keeps_config_throw (A : Type) e : keeps_config (throw e : M W A).
Proof. intros s. apply same_config_refl. Qed.

Lemma keeps_config_bind (A B : Type) (m : M W A) (f : A -> M W B) :
  keeps_config m -> (forall a, keeps_config (f a)) -> keeps_config (bind m f).
Proof.
  intros Hm Hf s. specialize (Hm s). unfold bind, state_of in *.
  destruct (m s) as [[[a|e] s1] t1]; cbn [fst snd] in *; [|assumption].
  specialize (Hf a s1). unfold state_of in Hf.
  destruct (f a s1) as [[o s2] t2]. cbn [fst snd] in *.
  now apply same_config_trans with (fst s1).
Qed.

Lemma keeps_config_try_catch (A : Type) (m : M W A) (h : Error -> M W A) :
  keeps_config m -> (forall e, keeps_config (h e)) -> keeps_config (try_catch m h).
Proof.
  intros Hm Hh s. specialize (Hm s). unfold try_catch, state_of in *.
  destruct (m s) as [[[a|e] s1] t1]; cbn [fst snd] in *; [assumption|].
  specialize (Hh e s1). unfold state_of in Hh.
  destruct (h e s1) as [[o s2] t2]. cbn [fst snd] in *.
  now apply same_config_trans with (fst s1).
Qed.

Lemma keeps_config_getAccessToken : keeps_config (getAccessToken : M W string).
Proof.
  intros s. rewrite getAccessToken_run. cbv zeta.
  destruct (still_valid _ _); [apply same_config_refl|].
  destruct (post_token _ _ _) as [[response|e] w]; unfold state_of; cbn [fst snd].
  - apply same_config_set_token.
  - apply same_config_refl.
Qed.

Lemma keeps_config_http_get (A : Type) url q (call : string -> W -> Outcome A * W) :
  keeps_config (http_get url q call).
Proof.
  intros s. rewrite http_get_run. pose proof (keeps_config_getAccessToken s) as H.
  unfold state_of in *.
  destruct (getAccessToken s) as [[[token|e] s1] t1]; cbn [fst snd] in *; [|assumption].
  now destruct (call _ (snd s1)).
Qed.

Lemma keeps_config_getHotelOffers params : keeps_config (getHotelOffers r params).
Proof.
  intros s. destruct (Args.hotelIds params) as [allIds|] eqn:Hids.
  - rewrite (getHotelOffers_exact r params s Hids). unfold state_of. cbn [fst snd].
    generalize (merged_rateCodes r (Args.rateCodes params)
                  (AmadeusClient.defaultSupplierCodes (fst s))) as rateCodes.
    generalize (length (batches_of allIds)) as n. generalize 0 as batchIdx.
    generalize (batches_of allIds) as remaining. intros remaining. revert s.
    induction remaining as [|batch rest IH]; intros s batchIdx n rateCodes;
      [apply same_config_refl|].
    cbn [loop_state].
    eapply same_config_trans; [|apply IH].
    pose proof (keeps_config_http_get offers_url
                  (requestParams r params rateCodes batch)
                  (get_offers (requestParams r params rateCodes batch)) s) as H.
    unfold paced. now destruct (batchIdx <? n - 1)%nat.
  - unfold getHotelOffers. rewrite Hids. apply same_config_refl.
Qed.

Lemma keeps_config_dispatch name args : keeps_config (dispatch r name args).
Proof.
  unfold dispatch, undefined_read.
  repeat match goal with
         | |- keeps_config (if ?b then _ else _) => destruct b
         | |- keeps_config (match ?x with _ => _ end) => destruct x
         | |- keeps_config (bind _ _) => apply keeps_config_bind; intros
         | |- keeps_config (ret _) => apply keeps_config_ret
         | |- keeps_config (throw _) => apply keeps_config_throw
         | |- keeps_config (getHotelOffers _ _) => apply keeps_config_getHotelOffers
         | |- keeps_config (http_get _ _ _) => apply keeps_config_http_get
         | |- keeps_config this => intros ?; apply same_config_refl
         | |- keeps_config (emit _) => intros ?; apply same_config_refl
         | |- keeps_config (searchHotelsByCity _) => unfold searchHotelsByCity, undefined_read
         | |- keeps_config (searchHotelsByGeocode _) => unfold searchHotelsByGeocode
         | |- keeps_config (getHotelOfferById _) => unfold getHotelOfferById
         | |- keeps_config (getHotelContent _) =>
             unfold getHotelContent; apply keeps_config_try_catch; intros
         end.
Qed.

End Config.

(** X11.  No tool call changes what the constructor set: client id and
    secret, office id, base and token URLs and the default rate codes are
    the same after any call, whatever the upstream answers; only the token
    cache moves. *)
Theorem call_tool_keeps_config {W : Type} {world : World W} (r : Revision)
        (name : string) (args : option Args.t) (s : State W) :
  same_config (fst s) (fst (state_of (call_tool r name args s))).
Proof.
  apply (@keeps_config_try_catch W ToolResult (dispatch r name args) on_error).
  - apply keeps_config_dispatch.
  - intros e. unfold on_error.
    destruct e; try apply keeps_config_ret; apply keeps_config_throw.
Qed.

(* ===================================================================== *)
(** ** The searches *)
(* ===================================================================== *)

Lemma assoc_radius params :
  assoc "radius" (search_filters params) = Some (String_of (clamped_radius params)).
Proof. reflexivity. Qed.

(** X12.  Both searches send a radius between 1 and 100: the caller's
    value when it lies in that range, 1 below it, 100 above it, and 20
    when the caller gives none. *)
Theorem search_radius_clamped {W : Type} {world : World W} (params : Args.t) (s : State W) :
  let v := clamped_radius params in
  (1 <= v <= 100)%Z
  /\ (Args.radius params = None -> v = 20%Z)
  /\ (forall x, Args.radius params = Some x ->
        ((1 <= x <= 100)%Z -> v = x) /\ ((x < 1)%Z -> v = 1%Z) /\ ((100 < x)%Z -> v = 100%Z))
  /\ (exists q, invocations (trace_of (searchHotelsByGeocode params s)) = [(by_geocode_url, q)]
                /\ assoc "radius" q = Some (String_of v))
  /\ (forall cityCode, Args.cityCode params = Some cityCode ->
      exists q, invocations (trace_of (searchHotelsByCity params s)) = [(by_city_url, q)]
                /\ assoc "radius" q = Some (String_of v)).
Proof.
  intros v. unfold v, clamped_radius.
  split; [lia|]. split; [now intros ->|]. split; [intros x ->; simpl; lia|]. split.
  - eexists. split.
    + unfold searchHotelsByGeocode, bind at 1.
      match goal with |- context [http_get ?u ?q ?c s] =>
        pose proof (http_get_invocations u q c s) as Hi;
        destruct (http_get u q c s) as [[[d|e] s1] t1] end;
        unfold trace_of in *; simpl in *; rewrite ?app_nil_r; exact Hi.
    + destruct (Args.latitude params), (Args.longitude params); reflexivity.
  - intros cityCode Hc. eexists. split.
    + unfold searchHotelsByCity. rewrite Hc. unfold bind at 1.
      match goal with |- context [http_get ?u ?q ?c s] =>
        pose proof (http_get_invocations u q c s) as Hi;
        destruct (http_get u q c s) as [[[d|e] s1] t1] end;
        unfold trace_of in *; simpl in *; rewrite ?app_nil_r; exact Hi.
    + reflexivity.
Qed.



(** X14.  [search_hotels_by_geocode] with both coordinates makes one call
    to the by-geocode endpoint carrying them, and settles as that call
    does. *)
Theorem search_hotels_by_geocode_surfaces {W : Type} {world : World W} (r : Revision)
        (params : Args.t) (latitude longitude : string) (s : State W) :
  Args.latitude params = Some latitude -> Args.longitude params = Some longitude ->
  let q := ("latitude", latitude) :: ("longitude", longitude) :: search_filters params in
  let x := http_get by_geocode_url q (get_hotels by_geocode_url q) s in
  call_tool r "search_hotels_by_geocode" (Some params) s
  = (surfaced (fun data => GeocodeHotels latitude longitude (data ?? [])) (outcome_of x),
     state_of x, trace_of x)
  /\ invocations (trace_of x) = [(by_geocode_url, q)].
Proof.
  intros Hlat Hlon q x. split; [|apply http_get_invocations].
  unfold call_tool, dispatch. cbn [String.eqb Ascii.eqb Bool.eqb].
  rewrite Hlat, Hlon. unfold searchHotelsByGeocode. rewrite Hlat, Hlon.
  cbn [if_defined app]. fold q.
  unfold try_catch, bind, ret, surfaced, on_error. fold x.
  destruct x as [[[d|[st dt msg|code msg|msg|msg]] s1] t1];
    unfold outcome_of, state_of, trace_of; simpl; now rewrite ?app_nil_r.
Qed.

(** X15.  [get_hotel_offer_details] with an offer id makes one call to the
    endpoint of that offer and settles as that call does. *)
Theorem get_hotel_offer_details_surfaces {W : Type} {world : World W} (r : Revision)
        (params : Args.t) (offerId : string) (s : State W) :
  Args.offerId params = Some offerId -> offerId <> "" ->
  let url := String.append "/v3/shopping/hotel-offers/" offerId in
  let q := if_truthy "lang" (Args.lang params) in
  let x := http_get url q (get_offer url q) s in
  call_tool r "get_hotel_offer_details" (Some params) s
  = (surfaced OfferDetails (outcome_of x), state_of x, trace_of x)
  /\ invocations (trace_of x) = [(url, q)].
Proof.
  intros Hid Hne url q x. split; [|apply http_get_invocations].
  unfold call_tool, dispatch. cbn [String.eqb Ascii.eqb Bool.eqb].
  rewrite Hid. destruct offerId as [|a o]; [congruence|].
  cbn [JS.truthy JS.truthy_string negb].
  unfold getHotelOfferById. rewrite Hid. cbn [or_else]. fold url. fold q.
  unfold try_catch, bind, ret, surfaced, on_error. fold x.
  destruct x as [[[d|[st dt msg|code msg|msg|msg]] s1] t1];
    unfold outcome_of, state_of, trace_of; simpl; now rewrite ?app_nil_r.
Qed.

(* ===================================================================== *)
(** ** The handler as a whole *)
(* ===================================================================== *)

(** X16.  Whatever a tool call throws is an [McpError]: no axios error,
    [TypeError] or other exception leaves the handler. *)
Theorem call_tool_throws_McpError {W : Type} {world : World W} (r : Revision)
        (name : string) (args : option Args.t) (s : State W) (e : Error) :
  outcome_of (call_tool r name args s) = Throw e ->
  exists code message, e = McpError code message.
Proof.
  unfold call_tool, try_catch, outcome_of.
  destruct (dispatch r name args s) as [[[a|[st d msg|code msg|msg|msg]] s1] t1];
    simpl; try discriminate; intros [= <-]; eauto.
Qed.

(** X17.  A name that is none of the six tools is answered with
    [MethodNotFound] and the name, before anything else happens. *)
Theorem call_tool_unknown {W : Type} {world : World W} (r : Revision)
        (name : string) (args : option Args.t) (s : State W) :
  ~ In name tool_names ->
  call_tool r name args s
  = (Throw (McpError MethodNotFound (String.append "Unknown tool: " name)), s, []).
Proof.
  intros Hn. unfold call_tool, try_catch, dispatch, tool_names in *.
  repeat match goal with
         | |- context [String.eqb name ?t] =>
             destruct (String.eqb_spec name t) as [->|_];
             [exfalso; apply Hn; simpl; tauto|]
         end.
  reflexivity.
Qed.




(** X20.  [list_supplier_codes] needs no arguments and no network: it
    lists the default codes and every entry of the registry, in the order
    of the table, each marked active exactly when it is a default code. *)
Theorem list_supplier_codes_lists_registry {W : Type} {world : World W} (r : Revision)
        (args : option Args.t) (s : State W) :
  exists all,
    call_tool r "list_supplier_codes" args s
    = (Return (SupplierCodes (AmadeusClient.defaultSupplierCodes (fst s)) all), s, [])
    /\ map (fun x => (fst (fst x), snd (fst x))) all = SUPPLIER_CODES r
    /\ forall code info active, In (code, info, active) all ->
         (active = true <-> In code (AmadeusClient.defaultSupplierCodes (fst s))).
Proof.
  eexists. split; [reflexivity|]. split.
  - rewrite map_map. rewrite <- (map_id (SUPPLIER_CODES r)) at 2.
    apply map_ext. now intros [code info].
  - intros code info active Hin. apply in_map_iff in Hin.
    destruct Hin as [[code' info'] [[= <- <- <-] _]].
    unfold getDefaultSupplierCodes. apply includes_In.
Qed.

(* ===================================================================== *)
(** ** The constructor *)
(* ===================================================================== *)

(** X21.  The constructor succeeds exactly when both credentials are set
    and non-empty.  The client it returns has an empty token cache, talks
    to the UAT host exactly when [AMADEUS_ENV] is [test], derives the token
    URL from the base URL, and performs a credential exchange on its first
    use. *)
Theorem constructor_credentials {W : Type} {world : World W} (r : Revision) (env : Env.t) :
  ((exists c, constructor r env = Return c)
   <-> JS.truthy (Env.AMADEUS_CLIENT_ID env) = true
       /\ JS.truthy (Env.AMADEUS_CLIENT_SECRET env) = true)
  /\ forall c, constructor r env = Return c ->
       Some (AmadeusClient.clientId c) = Env.AMADEUS_CLIENT_ID env
       /\ Some (AmadeusClient.clientSecret c) = Env.AMADEUS_CLIENT_SECRET env
       /\ AmadeusClient.guestOfficeId c = Env.AMADEUS_GUEST_OFFICE_ID env
       /\ AmadeusClient.accessToken c = None
       /\ AmadeusClient.tokenExpiresAt c = 0%Z
       /\ (Env.AMADEUS_ENV env = Some "test" ->
           AmadeusClient.baseUrl c = "https://test.travel.api.amadeus.com")
       /\ (Env.AMADEUS_ENV env <> Some "test" ->
           AmadeusClient.baseUrl c = production_baseUrl r)
       /\ AmadeusClient.authUrl c
          = String.append (AmadeusClient.baseUrl c) "/v1/security/oauth2/token"
       /\ forall w : W, exchanged (c, w).
Proof.
  unfold constructor.
  destruct (Env.AMADEUS_CLIENT_ID env) as [[|a id]|];
    destruct (Env.AMADEUS_CLIENT_SECRET env) as [[|b sec]|];
    cbn [or_else JS.truthy JS.truthy_string negb orb]; split;
    try (split; [intros [c Hc]; discriminate Hc | intros [H1 H2]; discriminate]);
    try (intros c Hc; discriminate Hc).
  - split; [intros _; now split | intros _; eauto].
  - intros c [= <-]. cbn [AmadeusClient.clientId AmadeusClient.clientSecret
      AmadeusClient.guestOfficeId AmadeusClient.accessToken AmadeusClient.tokenExpiresAt
      AmadeusClient.baseUrl AmadeusClient.authUrl].
    repeat match goal with |- _ /\ _ => split end; try reflexivity.
    + intros ->. reflexivity.
    + intros Hne. destruct (Env.AMADEUS_ENV env) as [e|]; [|reflexivity].
      destruct (String.eqb_spec e "test") as [->|_]; [congruence | reflexivity].
    + intros w. apply getAccessToken_exchanged. reflexivity.
Qed.

(** X22.  No default code is the empty string, and so the rate codes of a
    pricing query contain the empty string only if the caller passed it. *)
Theorem default_codes_nonempty (r : Revision) (env : Env.t) (c : AmadeusClient.t) :
  constructor r env = Return c ->
  ~ In "" (getDefaultSupplierCodes c)
  /\ forall callerCodes,
       ~ In "" (callerCodes ?? []) ->
       ~ In "" (merged_rateCodes r callerCodes (getDefaultSupplierCodes c)).
Proof.
  intros Hc.
  assert (Hd : ~ In "" (getDefaultSupplierCodes c)).
  { unfold constructor in Hc. destruct (negb _ || negb _); [discriminate|].
    injection Hc as <-. unfold getDefaultSupplierCodes, configured_codes.
    cbn [AmadeusClient.defaultSupplierCodes].
    assert (Hk : ~ In "" (Object_keys (SUPPLIER_CODES r))) by (destruct r; not_listed).
    destruct (Env.AMADEUS_RATE_CODES env) as [v|]; [|exact Hk].
    destruct (JS.truthy_string v); [|exact Hk].
    intros Hin. apply filter_In in Hin. destruct Hin as [_ Hin]. discriminate Hin. }
  split; [exact Hd|]. intros callerCodes Hcaller Hin.
  rewrite merged_rateCodes_eq in Hin. apply truncated_In, in_app_or in Hin.
  destruct Hin as [Hin|Hin].
  - apply Hcaller. now apply In_first_occurrences.
  - apply filter_In in Hin. destruct Hin as [Hin _].
    apply Hd. now apply In_first_occurrences.
Qed.

(** X23.  The environment that the server reports names the host it talks
    to: [getEnvironment] is a label followed by the host of [baseUrl] in
    parentheses, for both revisions and both values of [AMADEUS_ENV]. *)
Theorem getEnvironment_names_host (r : Revision) (env : Env.t) (c : AmadeusClient.t) :
  constructor r env = Return c ->
  exists label host,
    getEnvironment r env
    = String.append label (String.append " (" (String.append host ")"))
    /\ AmadeusClient.baseUrl c = String.append "https://" host
    /\ (label = "UAT" <-> Env.AMADEUS_ENV env = Some "test")
    /\ (label = "Production" <-> Env.AMADEUS_ENV env <> Some "test").
Proof.
  unfold constructor, getEnvironment. destruct (negb _ || negb _); [discriminate|].
  intros [= <-]. cbn [AmadeusClient.baseUrl].
  destruct (Env.AMADEUS_ENV env) as [e|].
  - destruct (String.eqb_spec e "test") as [->|Hne].
    + exists "UAT", "test.travel.api.amadeus.com". repeat split; congruence.
    + destruct r; [exists "Production", "travel.api.amadeus.com"
                  | exists "Production", "api.amadeus.com"];
        repeat split; congruence.
  - destruct r; [exists "Production", "travel.api.amadeus.com"
                | exists "Production", "api.amadeus.com"];
      repeat split; congruence.
Qed.

(* ===================================================================== *)
(** ** The images of a hotel content *)
(* ===================================================================== *)




(* ===================================================================== *)
(** ** What a pricing query puts on the wire *)
(* ===================================================================== *)

Section Wire.

Context {W : Type} {world : World W}.
Variable r : Revision.

Lemma http_get_requests (A : Type) url q (call : string -> W -> Outcome A * W) (s : State W) :
  requests (trace_of (http_get url q call s))
  = match outcome_of (getAccessToken s) with
    | Return token => [(url, q, String.append "Bearer " token)]
    | Throw _ => []
    end
  /\ length (exchanges (trace_of (http_get url q call s))) <= 1.
Proof.
  rewrite http_get_trace, getAccessToken_trace.
  change (HttpGet url q :: ?x) with ([HttpGet url q] ++ x).
  rewrite !requests_app, !exchanges_app.
  destruct (still_valid _ _); destruct (outcome_of _); simpl; split; (reflexivity || lia).
Qed.

Lemma batch_steps_silent (A : Type) batchIdx n (o : Outcome A) :
  requests (batch_log batchIdx o) = [] /\ requests (batch_pause batchIdx n) = []
  /\ exchanges (batch_log batchIdx o) = [] /\ exchanges (batch_pause batchIdx n) = [].
Proof.
  unfold batch_log, batch_pause.
  destruct o as [a|e]; [|destruct (isAxiosError e)];
    destruct (batchIdx <? n - 1)%nat; repeat split.
Qed.

Lemma loop_trace_wire params rateCodes n : forall remaining batchIdx (s : State W),
  let t := loop_trace r params rateCodes remaining batchIdx n s in
  Forall (fun x => fst (fst x) = offers_url
                   /\ (exists batch, In batch remaining
                                     /\ snd (fst x) = requestParams r params rateCodes batch)
                   /\ exists token, snd x = String.append "Bearer " token)
         (requests t)
  /\ length (requests t) <= length remaining
  /\ length (exchanges t) <= length remaining.
Proof.
  induction remaining as [|batch rest IH]; intros batchIdx s; cbn [loop_trace].
  - repeat split; [constructor | simpl; lia | simpl; lia].
  - set (q := requestParams r params rateCodes batch).
    set (x := http_get offers_url q (get_offers q) s).
    destruct (IH (S batchIdx) (paced batchIdx n (state_of x))) as (F & Lr & Le).
    destruct (http_get_requests offers_url q (get_offers q) s) as (Rq & Ex). fold x in Rq, Ex.
    destruct (batch_steps_silent batchIdx n (outcome_of x)) as (Sr & Sr' & Se & Se').
    rewrite !requests_app, !exchanges_app, Sr, Sr', Se, Se', Rq, !length_app.
    cbn [app].
    split; [|split].
    + apply Forall_app. split.
      * destruct (outcome_of (getAccessToken s)) as [token|e]; constructor; [|constructor].
        simpl. split; [reflexivity|]. split; [|now exists token].
        exists batch. split; [now left | reflexivity].
      * eapply Forall_impl; [|exact F]. intros [[u q'] a] (Hu & (b & Hb & Hq) & Ha).
        split; [exact Hu|]. split; [|exact Ha]. exists b. split; [now right | exact Hq].
    + destruct (outcome_of (getAccessToken s)); simpl in *; lia.
    + simpl in *. lia.
Qed.

End Wire.

(** X25.  The requests that a pricing query puts on the wire all go to the
    pricing endpoint, each with the parameters of one of the batches and a
    [Bearer] token; there are at most as many of them as batches, and at
    most as many credential exchanges. *)
Theorem getHotelOffers_wire {W : Type} {world : World W} (r : Revision)
        (params : Args.t) (allIds : list string) (s : State W) :
  Args.hotelIds params = Some allIds ->
  let rateCodes := merged_rateCodes r (Args.rateCodes params)
                     (AmadeusClient.defaultSupplierCodes (fst s)) in
  let t := trace_of (getHotelOffers r params s) in
  (forall url q authorization, In (url, q, authorization) (requests t) ->
     url = offers_url
     /\ (exists batch, In batch (batches_of allIds)
                       /\ q = requestParams r params rateCodes batch)
     /\ exists token, authorization = String.append "Bearer " token)
  /\ length (requests t) <= ceil_div (length allIds) 20
  /\ length (exchanges t) <= ceil_div (length allIds) 20.
Proof.
  intros Hids rateCodes t. unfold t.
  rewrite (getHotelOffers_exact r params s Hids). unfold trace_of. cbn [snd].
  fold rateCodes.
  destruct (loop_trace_wire r params rateCodes (length (batches_of allIds))
              (batches_of allIds) 0 s) as (F & Lr & Le).
  assert (Hlen : length (batches_of allIds) = ceil_div (length allIds) 20).
  { unfold batches_of. rewrite batches_from_length. now rewrite Nat.sub_0_r. }
  rewrite <- Hlen. split; [|split; assumption].
  intros url q a Hin. rewrite Forall_forall in F. exact (F _ Hin).
Qed.

Lemma assoc_rateCodes r params rateCodes batch :
  assoc "rateCodes" (requestParams r params rateCodes batch)
  = match rateCodes with
    | [] => None
    | _ :: _ => Some (JS.join_comma rateCodes)
    end.
Proof.
  unfold requestParams, if_defined, if_truthy.
  destruct (Args.checkInDate params), (Args.checkOutDate params),
    (Args.currency params) as [[|? ?]|], (Args.priceRange params) as [[|? ?]|],
    (Args.boardType params) as [[|? ?]|], (Args.lang params) as [[|? ?]|];
    destruct rateCodes; reflexivity.
Qed.

(** X26.  Every pricing call of one query carries the same rate codes, the
    merged ones: as a comma-joined [rateCodes] parameter, which splits back
    into them when no code contains a comma, and as no parameter at all
    when there are none. *)
Theorem rateCodes_on_every_call {W : Type} {world : World W} (r : Revision)
        (params : Args.t) (allIds : list string) (s : State W) :
  Args.hotelIds params = Some allIds ->
  let rateCodes := merged_rateCodes r (Args.rateCodes params)
                     (AmadeusClient.defaultSupplierCodes (fst s)) in
  forall url q, In (url, q) (invocations (trace_of (getHotelOffers r params s))) ->
    (rateCodes = [] -> assoc "rateCodes" q = None)
    /\ (rateCodes <> [] -> assoc "rateCodes" q = Some (JS.join_comma rateCodes))
    /\ (rateCodes <> [] -> Forall (fun c => has_comma c = false) rateCodes ->
        option_map JS.split_comma (assoc "rateCodes" q) = Some rateCodes).
Proof.
  intros Hids rateCodes url q Hin.
  destruct (getHotelOffers_run r params s Hids) as [s' [t [E Hcalls]]].
  rewrite E in Hin. unfold trace_of in Hin. cbn [snd] in Hin. rewrite Hcalls in Hin.
  apply in_map_iff in Hin. destruct Hin as [batch [[= <- <-] _]].
  fold rateCodes. rewrite assoc_rateCodes.
  split; [now intros ->|]. split.
  - intros Hne. destruct rateCodes; [congruence | reflexivity].
  - intros Hne Hcomma. destruct rateCodes as [|c l] eqn:Hr; [congruence|].
    simpl. f_equal. now apply split_join_comma.
Qed.

(* ===================================================================== *)
(** ** The further properties on concrete inputs *)
(* ===================================================================== *)

Example content_images_ex :
  content_images (Some Sample.media) = ["https://img/1/F.jpg"; "https://img/2/B.jpg"]
  /\ content_description (Some Sample.media) = Some "A quiet room".
Proof. split; reflexivity. Qed.

(** The rate codes reported as applied are the defaults, not the (capped)
    codes that were sent. *)
Example reported_codes_are_the_defaults :
  let params := Args.mk None None None None None None None None None (Some ["H1"])
                        (Some "2026-01-10") (Some "2026-01-12") None None None None
                        (Some ["XYZ"]) None None None None None in
  let x := call_tool Enterprise "get_hotel_offers" (Some params) (Scripted.idle Enterprise) in
  match outcome_of x with
  | Return (HotelOffers _ _ _ _ applied _ _) =>
      applied = ["APS"; "PP6"; "3MF"; "1HZ"; "W9E"; "PR2"]
  | _ => False
  end
  /\ map (fun call => assoc "rateCodes" (snd call)) (invocations (trace_of x))
     = [Some "XYZ,APS,PP6,3MF,1HZ,W9E"].
Proof. vm_compute. split; reflexivity. Qed.

Lemma batches_full_but_last_witness :
  length (JS.slice 40 60 (Scripted.ids 45)) = 5.
Proof.
  destruct (batches_full_but_last (Scripted.ids 45) 2
              (batch := JS.slice 40 60 (Scripted.ids 45)) eq_refl) as (_ & _ & H).
  apply H. reflexivity.
Defined.

Lemma hotelIds_round_trip_witness :
  map (fun call => option_map JS.split_comma (assoc "hotelIds" (snd call)))
      (invocations (trace_of (getHotelOffers Enterprise
                                (Scripted.stay (Some ["H0"; "H1"; "H2"]))
                                (Scripted.idle Enterprise))))
  = [Some ["H0"; "H1"; "H2"]].
Proof.
  apply (hotelIds_round_trip Enterprise (Scripted.stay (Some ["H0"; "H1"; "H2"]))
           (Scripted.idle Enterprise) eq_refl).
  repeat constructor.
Defined.

Lemma getHotelOffers_pacing_witness :
  timeouts (trace_of (getHotelOffers Enterprise (Scripted.stay (Some (Scripted.ids 45)))
                        (Scripted.idle Enterprise)))
  = [100%Z; 100%Z].
Proof.
  exact (proj1 (getHotelOffers_pacing Enterprise (Scripted.stay (Some (Scripted.ids 45)))
                  (Scripted.idle Enterprise) eq_refl)).
Defined.

Lemma getHotelOffers_logging_witness :
  console (trace_of (getHotelOffers Enterprise (Scripted.stay (Some (Scripted.ids 45)))
                       (Scripted.logged_in Enterprise Scripted.second_of_three_fails)))
  = ["[amadeus] Batch 2 error:"].
Proof.
  exact (proj1 (getHotelOffers_logging Enterprise (Scripted.stay (Some (Scripted.ids 45)))
                  (Scripted.logged_in Enterprise Scripted.second_of_three_fails) eq_refl)).
Defined.

Lemma interceptor_bearer_witness :
  requests (trace_of (http_get "/x" [] (get_content "/x") Sample.locked_out)) = []
  /\ outcome_of (http_get "/x" [] (get_content "/x") Sample.locked_out)
     = Throw Scripted.network_error.
Proof.
  destruct (interceptor_bearer "/x" [] (get_content "/x") Sample.locked_out) as (_ & _ & H).
  apply H. reflexivity.
Defined.

Lemma http_get_with_valid_token_witness :
  trace_of (http_get "/x" [] (get_content "/x") (Scripted.idle Enterprise))
  = [HttpGet "/x" []; Sent "/x" [] "Bearer tok"].
Proof.
  refine (proj1 (http_get_with_valid_token "/x" [] (get_content "/x")
                   (Scripted.idle Enterprise) (tok := "tok") eq_refl _ eq_refl)).
  discriminate.
Defined.

Lemma token_reused_after_exchange_witness :
  getAccessToken (state_of (getAccessToken (Sample.logged_out "new" 1799)))
  = (Return "new", state_of (getAccessToken (Sample.logged_out "new" 1799)), []).
Proof.
  refine (proj2 (token_reused_after_exchange (Sample.logged_out "new" 1799)
                   eq_refl eq_refl _ eq_refl)).
  discriminate.
Defined.

Lemma short_lived_token_never_reused_witness :
  exchanged (state_of (getAccessToken (Sample.logged_out "brief" 30))).
Proof.
  refine (short_lived_token_never_reused (Sample.logged_out "brief" 30)
            eq_refl eq_refl _ _); simpl; lia.
Defined.

Lemma getHotelOffers_provenance_witness :
  exists data raw,
    In raw data /\ Hotel.hotelId (HotelOffer.hotel raw) = "H40"
    /\ HotelOffer.available raw = true.
Proof.
  pose (s := Scripted.logged_in Enterprise Scripted.second_of_three_fails).
  pose (params := Scripted.stay (Some (Scripted.ids 45))).
  pose (results := match outcome_of (getHotelOffers Enterprise params s) with
                   | Return l => l
                   | Throw _ => []
                   end).
  assert (E : outcome_of (getHotelOffers Enterprise params s) = Return results)
    by reflexivity.
  pose proof (getHotelOffers_provenance Enterprise params s eq_refl E) as P.
  cbv zeta in P.
  destruct (P (enrichHotel Enterprise
                 (Scripted.hotel "H40" true
                    (Some [Scripted.offer "o3" (Some " PP6 ");
                           Scripted.offer "o4" (Some "XXX")]))))
    as (data & raw & _ & Hraw & _ & Hh & Ha & _).
  - right. left. reflexivity.
  - exists data, raw. split; [exact Hraw|]. split.
    + now rewrite <- Hh.
    + now rewrite <- Ha.
Defined.

Lemma search_radius_clamped_witness :
  clamped_radius (Sample.by_city "TLV" (Some 500%Z)) = 100%Z.
Proof.
  destruct (search_radius_clamped (Sample.by_city "TLV" (Some 500%Z))
              (Scripted.idle Enterprise)) as (_ & _ & H & _).
  apply (H 500%Z eq_refl). reflexivity.
Defined.


Lemma search_hotels_by_geocode_surfaces_witness :
  outcome_of (call_tool Enterprise "search_hotels_by_geocode"
                (Some (Sample.by_geocode "48.8584" "2.2945")) (Scripted.idle Enterprise))
  = Return (ApiError None None).
Proof.
  destruct (search_hotels_by_geocode_surfaces Enterprise
              (Sample.by_geocode "48.8584" "2.2945")
              (Scripted.idle Enterprise) eq_refl eq_refl) as (E & _).
  rewrite E. reflexivity.
Defined.

Lemma get_hotel_offer_details_surfaces_witness :
  invocations (trace_of (call_tool Enterprise "get_hotel_offer_details"
                           (Some (Sample.offer_details "ABC123"))
                           (Scripted.idle Enterprise)))
  = [("/v3/shopping/hotel-offers/ABC123", [])].
Proof.
  destruct (get_hotel_offer_details_surfaces Enterprise (Sample.offer_details "ABC123")
              (offerId := "ABC123") (Scripted.idle Enterprise) eq_refl) as (E & I).
  - discriminate.
  - rewrite E. exact I.
Defined.

Lemma call_tool_throws_McpError_witness :
  exists code message,
    McpError InvalidParams "cityCode is required" = McpError code message.
Proof.
  exact (call_tool_throws_McpError Enterprise "search_hotels_by_city"
           (Some Args.empty) (Scripted.idle Enterprise) eq_refl).
Defined.

Lemma call_tool_unknown_witness :
  call_tool Enterprise "book_hotel" None (Scripted.idle Enterprise)
  = (Throw (McpError MethodNotFound "Unknown tool: book_hotel"),
     Scripted.idle Enterprise, []).
Proof.
  apply (call_tool_unknown Enterprise None (Scripted.idle Enterprise) (name := "book_hotel")).
  not_listed.
Defined.



Lemma list_supplier_codes_lists_registry_witness :
  exists all,
    call_tool Earlier "list_supplier_codes" None (Scripted.idle Earlier)
    = (Return (SupplierCodes (Object_keys (SUPPLIER_CODES Earlier)) all),
       Scripted.idle Earlier, [])
    /\ map (fun x => (fst (fst x), snd (fst x))) all = SUPPLIER_CODES Earlier.
Proof.
  destruct (list_supplier_codes_lists_registry Earlier None (Scripted.idle Earlier))
    as (all & E & Hall & _).
  exists all. split; assumption.
Defined.

Lemma constructor_credentials_witness :
  (exists c, constructor Enterprise (Sample.env (Some "test") None) = Return c)
  /\ ~ exists c, constructor Enterprise
                   (Env.mk None (Some "id") (Some "") None None) = Return c.
Proof.
  split.
  - apply (proj1 (@constructor_credentials Scripted.t Scripted.world Enterprise
                    (Sample.env (Some "test") None))). split; reflexivity.
  - intros H.
    apply (proj1 (@constructor_credentials Scripted.t Scripted.world Enterprise
                    (Env.mk None (Some "id") (Some "") None None))) in H.
    destruct H as [_ H]. discriminate H.
Defined.

Lemma default_codes_nonempty_witness :
  ~ In "" (merged_rateCodes Enterprise (Some ["XYZ"]) ["APS"; "PP6"]).
Proof.
  destruct (default_codes_nonempty Enterprise (Sample.env None (Some "APS,, PP6 ,"))
              eq_refl) as (_ & H).
  apply (H (Some ["XYZ"])). not_listed.
Defined.

Lemma getEnvironment_names_host_witness :
  exists label host,
    getEnvironment Earlier (Sample.env None None)
    = String.append label (String.append " (" (String.append host ")"))
    /\ "https://api.amadeus.com" = String.append "https://" host.
Proof.
  destruct (getEnvironment_names_host Earlier (Sample.env None None) eq_refl)
    as (label & host & E & B & _).
  now exists label, host.
Defined.


Lemma getHotelOffers_wire_witness :
  length (requests (trace_of (getHotelOffers Enterprise
                                (Scripted.stay (Some (Scripted.ids 45)))
                                Sample.locked_out))) <= 3.
Proof.
  destruct (getHotelOffers_wire Enterprise (Scripted.stay (Some (Scripted.ids 45)))
              Sample.locked_out eq_refl) as (_ & H & _).
  exact H.
Defined.

Lemma rateCodes_on_every_call_witness :
  option_map JS.split_comma
    (assoc "rateCodes"
       (requestParams Enterprise (Scripted.stay (Some ["H0"]))
          ["APS"; "PP6"; "3MF"; "1HZ"; "W9E"; "PR2"] ["H0"]))
  = Some ["APS"; "PP6"; "3MF"; "1HZ"; "W9E"; "PR2"].
Proof.
  destruct (rateCodes_on_every_call Enterprise (Scripted.stay (Some ["H0"]))
              (Scripted.idle Enterprise) eq_refl
              offers_url
              (requestParams Enterprise (Scripted.stay (Some ["H0"]))
                 ["APS"; "PP6"; "3MF"; "1HZ"; "W9E"; "PR2"] ["H0"]))
    as (_ & _ & H).
  - left. reflexivity.
  - apply H; [discriminate | repeat constructor].
Defined.
